(** * sftps: the FTP/FTPS protocol engine of [ftp.go]

    A shallow embedding of the methods of [*Ftp] and a verification of
    the port arithmetic, the command sequencing and the session life
    cycle.

    Conventions of the embedding:
    - a Go [int] (64 bits on the supported platforms) is a [Z];
    - a Go [string] is a [string]; byte-wise loops run over
      [list_ascii_of_string];
    - a Go [error] value is an [option error], [None] being [nil];
    - a method with named results returns the tuple of its results, so
      a bare [return] hands back the current values of the result
      variables exactly as Go does;
    - everything outside the process (DNS, sockets, the FTP server, the
      file system) is an oracle of the record [World]; each oracle sees
      the log of all earlier interactions, and every interaction is
      appended to that log;
    - the connection fields of [Ftp] record what was assigned to them;
      a call through a connection is an interaction with the world
      whatever the field holds, so the nil dereference of a method
      called before [connect] is outside the model.  The panics
      modelled are those of the code itself: an index out of range, a
      nil response, and the [panic] of [getTLSConfig]. *)

From Stdlib Require Import ZArith List String Ascii Bool Lia.
Import ListNotations.

Local Open Scope string_scope.
Local Open Scope Z_scope.

(** ** Go errors *)

Inductive NumErrorKind : Type :=
| ErrSyntax
| ErrRange.

Inductive error : Type :=
| NumError (fn : string) (kind : NumErrorKind)   (* *strconv.NumError *)
| ErrorsNew (text : string)                      (* errors.New(text) *)
| ProtocolError (code : Z) (msg : string)        (* *textproto.Error *)
| SysError (op : string).                        (* net, tls, os, io failures *)

(** ** Package [strconv] *)

Module strconv.

Definition maxUint64 : Z := 18446744073709551615.   (* 1<<64 - 1 *)

(** The digit switch of [ParseUint]: ['0'..'9'], then letters of
    either case as 10..35. *)
Definition digit_val (c : ascii) : option Z :=
  let n := Z.of_N (N_of_ascii c) in
  if (48 <=? n) && (n <=? 57) then Some (n - 48)
  else if (97 <=? n) && (n <=? 122) then Some (n - 97 + 10)
  else if (65 <=? n) && (n <=? 90) then Some (n - 65 + 10)
  else None.

(** The accumulation loop of [ParseUint] for an explicit base, with
    [cutoff = maxUint64/base + 1] computed before the loop: the
    result is the value and the error, as Go returns them. *)
Fixpoint parse_uint_loop (base cutoff : Z) (cs : list ascii) (n : Z)
  : Z * option NumErrorKind :=
  match cs with
  | [] => (n, None)
  | c :: cs' =>
      match digit_val c with
      | None => (0, Some ErrSyntax)
      | Some d =>
          if base <=? d then (0, Some ErrSyntax)
          else if cutoff <=? n then (maxUint64, Some ErrRange)
          else
            let n1 := n * base + d in
            if maxUint64 <? n1 then (maxUint64, Some ErrRange)
            else parse_uint_loop base cutoff cs' n1
      end
  end.

Definition ParseUint (s : list ascii) (base : Z) : Z * option NumErrorKind :=
  match s with
  | [] => (0, Some ErrSyntax)
  | _ => parse_uint_loop base (maxUint64 / base + 1) s 0
  end.

(** [ParseInt(s, base, 64)] for [2 <= base <= 36]. *)
Definition ParseInt (s : string) (base : Z) : Z * option error :=
  let fail k := Some (NumError "ParseInt" k) in
  match list_ascii_of_string s with
  | [] => (0, fail ErrSyntax)
  | c :: rest =>
      let neg := Ascii.eqb c "-" in
      let body := if Ascii.eqb c "+" || neg then rest else c :: rest in
      let cutoff := 9223372036854775808 in   (* 1 << 63 *)
      match ParseUint body base with
      | (_, Some ErrSyntax) => (0, fail ErrSyntax)
      | (un, _) =>
          if negb neg && (cutoff <=? un) then (cutoff - 1, fail ErrRange)
          else if neg && (cutoff <? un) then (- cutoff, fail ErrRange)
          else (if neg then - un else un, None)
      end
  end.

(** [Atoi(s)]: its fast path and its slow path both compute
    [ParseInt(s, 10, 0)]; only the function name in the error differs. *)
Definition Atoi (s : string) : Z * option error :=
  match ParseInt s 10 with
  | (n, Some (NumError _ k)) => (n, Some (NumError "Atoi" k))
  | r => r
  end.

End strconv.

(** ** Package [fmt]: the verbs the program uses *)

Module fmt.

Definition ldigits : list ascii :=
  list_ascii_of_string "0123456789abcdef".

Definition hex_digit (d : Z) : ascii := nth (Z.to_nat d) ldigits "0"%char.

(** The base-16 loop of [fmtInteger]: digits are written from the
    right while [u >= 16]; the last digit is written after the loop.
    A 64-bit magnitude has at most 16 digits, which bounds the loop. *)
Fixpoint fmt_hex_loop (fuel : nat) (u : Z) (buf : list ascii) : list ascii :=
  match fuel with
  | O => buf
  | S fuel' =>
      if 16 <=? u
      then fmt_hex_loop fuel' (Z.shiftr u 4) (hex_digit (Z.land u 15) :: buf)
      else hex_digit u :: buf
  end.

(** [Sprintf("%x", p)] for an [int]. *)
Definition Sprintf_x (p : Z) : string :=
  let body := string_of_list_ascii (fmt_hex_loop 16 (Z.abs p) []) in
  if p <? 0 then "-" ++ body else body.

(** [Sprintf("%d", p)] for an [int]. *)
Definition Sprintf_d (p : Z) : string :=
  let fix loop (fuel : nat) (u : Z) (buf : list ascii) : list ascii :=
    match fuel with
    | O => buf
    | S fuel' =>
        if 10 <=? u
        then loop fuel' (u / 10) (hex_digit (u mod 10) :: buf)
        else hex_digit u :: buf
    end in
  let body := string_of_list_ascii (loop 20%nat (Z.abs p) []) in
  if p <? 0 then "-" ++ body else body.

End fmt.

(** ** The numeric helpers of [*Ftp]

    None of them reads the receiver, so they are functions of their
    arguments alone. *)

(** [ds2h], lines 239-246. *)
Definition ds2h (dec : string) : string * option error :=
  match strconv.Atoi dec with
  | (_, Some e) => ("", Some e)
  | (p, None) => (fmt.Sprintf_x p, None)
  end.

(** [h2i], lines 248-255.  The parse error is bound to the local [e];
    the named result [err] is never assigned. *)
Definition h2i (hex : string) : Z * option error :=
  match strconv.ParseInt hex 16 with
  | (_, Some _) => (0, None)
  | (r, None) => (r, None)
  end.

(** ** Package [regexp]: the fragment used by [pasv]

    Go's matcher returns the leftmost match and, among the matches at
    that position, the one a backtracking search finds first.  The
    matcher below is that backtracking search, in continuation-passing
    style, for literals, groups, concatenation and the two digit
    repetitions of the pattern. *)

Module regexp.

Inductive re : Type :=
| Lit (c : ascii)
| DigitsLazy            (* [0-9]+? *)
| DigitsGreedy          (* [0-9]+  *)
| Group (r : re)
| Cat (r1 r2 : re).

Definition is_digit (c : ascii) : bool :=
  let n := nat_of_ascii c in (48 <=? n)%nat && (n <=? 57)%nat.

(** The text between two positions of the same input. *)
Definition consumed (s rest : list ascii) : string :=
  string_of_list_ascii (firstn (List.length s - List.length rest) s).

Section Backtracking.
Context {R : Type}.

(** One or more digits, the shortest repetition tried first. *)
Fixpoint lazy_plus (s : list ascii) (k : list ascii -> option R) : option R :=
  match s with
  | c :: s' =>
      if is_digit c then
        match k s' with
        | Some r => Some r
        | None => lazy_plus s' k
        end
      else None
  | [] => None
  end.

(** One or more digits, the longest repetition tried first. *)
Fixpoint greedy_plus (s : list ascii) (k : list ascii -> option R) : option R :=
  match s with
  | c :: s' =>
      if is_digit c then
        match greedy_plus s' k with
        | Some r => Some r
        | None => k s'
        end
      else None
  | [] => None
  end.

Fixpoint run (r : re) (s : list ascii) (caps : list string)
         (k : list ascii -> list string -> option R) : option R :=
  match r with
  | Lit c =>
      match s with
      | c' :: s' => if Ascii.eqb c c' then k s' caps else None
      | [] => None
      end
  | DigitsLazy => lazy_plus s (fun s' => k s' caps)
  | DigitsGreedy => greedy_plus s (fun s' => k s' caps)
  | Group r1 => run r1 s caps (fun s' caps' => k s' (caps' ++ [consumed s s'])%list)
  | Cat r1 r2 => run r1 s caps (fun s' caps' => run r2 s' caps' k)
  end.
End Backtracking.

(** A match anchored at the head of [s]: the whole match followed by
    the groups, and the unread rest of the input. *)
Definition match_here (r : re) (s : list ascii) : option (list string * list ascii) :=
  run r s [] (fun rest caps => Some (consumed s rest :: caps, rest)).

(** The leftmost match. *)
Fixpoint find (r : re) (s : list ascii) : option (list string * list ascii) :=
  match match_here r s with
  | Some m => Some m
  | None =>
      match s with
      | [] => None
      | _ :: s' => find r s'
      end
  end.

(** Successive matches; no match of the modelled patterns is empty,
    so the length of the input bounds their number. *)
Fixpoint find_all (fuel : nat) (r : re) (s : list ascii) : list (list string) :=
  match fuel with
  | O => []
  | S fuel' =>
      match find r s with
      | None => []
      | Some (m, rest) => m :: find_all fuel' r rest
      end
  end.

(** [re.FindAllStringSubmatch(s, -1)]. *)
Definition FindAllStringSubmatch (r : re) (s : string) : list (list string) :=
  let cs := list_ascii_of_string s in find_all (List.length cs) r cs.

End regexp.

(** The pattern compiled in [pasv], line 321:
    [([0-9]+?),([0-9]+?),([0-9]+?),([0-9]+?),([0-9]+?),([0-9]+)]. *)
Definition pasv_pattern : regexp.re :=
  let lazy_comma rest :=
    regexp.Cat (regexp.Group regexp.DigitsLazy) (regexp.Cat (regexp.Lit ",") rest) in
  lazy_comma (lazy_comma (lazy_comma (lazy_comma (lazy_comma
    (regexp.Group regexp.DigitsGreedy))))).

(** ** Data model *)

(** The package constants [OFFLINE]/[ONLINE], [IMPLICIT]/[EXPLICIT] and
    [DOWNLOAD]/[UPLOAD] are declared outside [ftp.go]; each pair is an
    enumeration.  A transfer direction is an [int] argument that
    [fileTransfer] tests against both constants, hence the third case. *)
Inductive state : Type := OFFLINE | ONLINE.
Inductive secure_mode : Type := IMPLICIT | EXPLICIT.
Inductive direction : Type := DOWNLOAD | UPLOAD | OtherDirection.

(** [ftpParameters] is declared outside [ftp.go]; these are the fields
    the methods read through [this.params]. *)
Module params.
Record ftpParameters : Type := {
  host : string;
  port : Z;
  user : string;
  pass : string;
  secure : bool;
  secureMode : secure_mode;
  cert : string;
  key : string;
  rootCA : string;
  alwaysTrust : bool;
  passive : bool;
  listenPort : Z;
  keepAlive : bool
}.
End params.
Definition ftpParameters : Type := params.ftpParameters.

Record FtpResponse : Type := {
  command : string;
  code : Z;
  msg : string
}.

(** *** Package [crypto/tls] *)

Inductive CipherSuite : Type :=
| TLS_RSA_WITH_AES_128_CBC_SHA
| TLS_RSA_WITH_AES_256_CBC_SHA
| TLS_ECDHE_ECDSA_WITH_AES_128_CBC_SHA
| TLS_ECDHE_ECDSA_WITH_AES_256_CBC_SHA
| TLS_ECDHE_RSA_WITH_AES_128_CBC_SHA
| TLS_ECDHE_RSA_WITH_AES_256_CBC_SHA
| TLS_ECDHE_RSA_WITH_AES_128_GCM_SHA256
| TLS_ECDHE_ECDSA_WITH_AES_128_GCM_SHA256.

Inductive ClientAuthType : Type :=
| NoClientCert
| VerifyClientCertIfGiven.

(** A loaded key pair and a certificate pool are known by the files
    and PEM blocks they were built from. *)
Record Certificate : Type := { certFile : string; keyFile : string }.
Definition CertPool : Type := list string.

Record Config : Type := {
  ClientAuth : ClientAuthType;
  CipherSuites : list CipherSuite;
  Certificates : list Certificate;
  RootCAs : option CertPool;
  ClientCAs : option CertPool;
  InsecureSkipVerify : bool
}.

(** [new(tls.Config)]. *)
Definition new_Config : Config :=
  {| ClientAuth := NoClientCert; CipherSuites := []; Certificates := [];
     RootCAs := None; ClientCAs := None; InsecureSkipVerify := false |}.

(** *** Connections *)

Inductive Conn : Type :=
| Dialed (addr : string)          (* net.Dial, dialer.Dial *)
| Accepted (listenAddr : string). (* listener.Accept *)

Inductive TLSConn : Type :=
| TLSDialed (addr : string) (conf : Config)          (* tls.DialWithDialer *)
| TLSClient (under : option Conn) (conf : Config).   (* tls.Client *)

Inductive TextConn : Type :=                         (* textproto.NewConn *)
| OverRaw (c : option Conn)
| OverTLS (c : option TLSConn).

(** The value bound to an [interface{}] data-channel handle. *)
Inductive iface : Type :=
| INil
| IConn (c : Conn)
| IListener (addr : string).

Record Ftp : Type := {
  rawConn : option Conn;
  tlsConn : option TLSConn;
  ctrlConn : option TextConn;
  params : ftpParameters;
  State : state
}.

(** [newFtp], lines 27-34. *)
Definition newFtp (p : ftpParameters) : Ftp :=
  {| rawConn := None; tlsConn := None; ctrlConn := None;
     params := p; State := OFFLINE |}.

(** ** The world outside the process *)

Inductive closer : Type :=
| CtrlConn | TlsConn | RawConn | DataConn | DataTLS | Listener | LocalFile.

(** An interface address as [getLocalIP] inspects it: an [*net.IPNet]
    with its loopback flag and its 4-byte form, or another address type. *)
Inductive Addr : Type :=
| IPNet (isLoopback : bool) (to4 : option string)
| OtherAddr.

Inductive event : Type :=
| EvLookupIP (host : string) (ips : option (list string))
| EvLoadX509KeyPair (certFile keyFile : string) (ok : bool)
| EvReadFile (path : string) (ok : bool)
| EvAppendCertsFromPEM (pem : string) (ok : bool)
| EvDialTLS (addr : string) (conf : Config) (ok : bool)
| EvDial (addr : string) (ok : bool)
| EvCmd (cmd : string) (ok : bool)
| EvReadResponse (expectCode : Z) (reply : option (Z * string))
| EvInterfaceAddrs (ok : bool)
| EvListen (addr : string) (ok : bool)
| EvAccept (ok : bool)
| EvTLSClient (conf : Config)
| EvReadAll (ok : bool)
| EvCreate (path : string) (ok : bool)
| EvOpen (path : string) (ok : bool)
| EvCopy (written : Z) (ok : bool)
| EvClose (what : closer).

(** Each oracle receives the log of what happened before the call. *)
Record World : Type := {
  TIMEOUT : string;                      (* constants declared outside ftp.go *)
  KEEPALIVE : string;
  w_ParseDuration : string -> bool;      (* time.ParseDuration succeeds *)
  w_LookupIP : list event -> string -> option (list string);
  w_LoadX509KeyPair : list event -> string -> string -> bool;
  w_ReadFile : list event -> string -> option string;
  w_AppendCertsFromPEM : list event -> string -> bool;
  w_DialTLS : list event -> string -> Config -> bool;
  w_Dial : list event -> string -> bool;
  w_Cmd : list event -> string -> bool;
  w_ReadResponse : list event -> option (Z * string);
  w_InterfaceAddrs : list event -> option (list Addr);
  w_Listen : list event -> string -> bool;
  w_Accept : list event -> bool;
  w_ReadAll : list event -> option string;
  w_Create : list event -> string -> bool;
  w_Open : list event -> string -> bool;
  w_Copy : list event -> Z * bool
}.

(** ** The monad of method bodies

    A method runs on a session (the receiver and the log) and either
    returns or panics. *)

Record Session : Type := { this : Ftp; log : list event }.

Inductive outcome (A : Type) : Type :=
| Return (a : A) (st : Session)
| Panic (why : string) (st : Session).
Arguments Return {A} a st.
Arguments Panic {A} why st.

Definition Go (A : Type) : Type := Session -> outcome A.

Definition ret {A} (a : A) : Go A := fun st => Return a st.

Definition bind {A B} (m : Go A) (k : A -> Go B) : Go B :=
  fun st =>
    match m st with
    | Return a st' => k a st'
    | Panic why st' => Panic why st'
    end.

Notation "x <- m ;; k" := (bind m (fun x => k))
  (at level 61, m at next level, right associativity).
Notation "' pat <- m ;; k" := (bind m (fun x => match x with pat => k end))
  (at level 61, pat pattern, m at next level, right associativity).
Notation "m ;;; k" := (bind m (fun _ => k))
  (at level 61, right associativity).

Definition panic {A} (why : string) : Go A := fun st => Panic why st.

Definition final {A} (o : outcome A) : Session :=
  match o with
  | Return _ st => st
  | Panic _ st => st
  end.

(** [defer f()] for an [f] that leaves the results alone: [f] runs
    when the body returns and when it panics. *)
Definition deferring {A} (f : Go unit) (body : Go A) : Go A :=
  fun st =>
    match body st with
    | Return a st' =>
        match f st' with
        | Return _ st'' => Return a st''
        | Panic why st'' => Panic why st''
        end
    | Panic why st' => Panic why (final (f st'))
    end.

(** [defer func() { ... }()] for a closure over the named results: on
    return it rewrites them; during a panic it runs for its effects,
    the results being dead. *)
Definition deferring_closure {A} (f : A -> Go A) (dead : A) (body : Go A) : Go A :=
  fun st =>
    match body st with
    | Return a st' => f a st'
    | Panic why st' => Panic why (final (f dead st'))
    end.

Definition get_this : Go Ftp := fun st => Return (this st) st.
Definition get_params : Go ftpParameters := fun st => Return (params (this st)) st.
Definition set_this (f : Ftp -> Ftp) : Go unit :=
  fun st => Return tt {| this := f (this st); log := log st |}.

(** The session after more events. *)
Definition extend (st : Session) (d : list event) : Session :=
  {| this := this st; log := (log st ++ d)%list |}.

(** An interaction: the oracle is asked on the current log, and the
    event built from its answer is appended. *)
Definition interact {A} (ask : list event -> A) (ev : A -> event) : Go A :=
  fun st => let a := ask (log st) in Return a (extend st [ev a]).

Definition is_some {A} (o : option A) : bool :=
  match o with Some _ => true | None => false end.

Definition emit (e : event) : Go unit :=
  fun st => Return tt (extend st [e]).

(** [strings.Replace(s, old, new, -1)] for one-byte [old] and [new]. *)
Definition strings_Replace (s : string) (old new : ascii) : string :=
  string_of_list_ascii
    (map (fun c => if Ascii.eqb c old then new else c) (list_ascii_of_string s)).

(** [textproto]: the test of a reply code against the expected code. *)
Definition code_matches (expectCode c : Z) : bool :=
  negb (((1 <=? expectCode) && (expectCode <? 10) && negb (c / 100 =? expectCode))
        || ((10 <=? expectCode) && (expectCode <? 100) && negb (c / 10 =? expectCode))
        || ((100 <=? expectCode) && (expectCode <? 1000) && negb (c =? expectCode))).

(** ** The methods of [*Ftp] *)

Section Methods.

Variable W : World.

Definition sys (op : string) (ok : bool) : option error :=
  if ok then None else Some (SysError op).

(** *** Calls into the standard library *)

Definition net_LookupIP (h : string) : Go (list string * option error) :=
  r <- interact (fun l => w_LookupIP W l h) (EvLookupIP h) ;;
  ret (match r with
       | Some ips => (ips, None)
       | None => ([], Some (SysError "net.LookupIP"))
       end).

Definition time_ParseDuration (s : string) : option error :=
  sys "time.ParseDuration" (w_ParseDuration W s).

Definition tls_LoadX509KeyPair (c k : string) : Go (Certificate * option error) :=
  ok <- interact (fun l => w_LoadX509KeyPair W l c k) (EvLoadX509KeyPair c k) ;;
  ret ({| certFile := c; keyFile := k |}, sys "tls.LoadX509KeyPair" ok).

Definition ioutil_ReadFile (path : string) : Go (string * option error) :=
  r <- interact (fun l => w_ReadFile W l path)
                (fun r => EvReadFile path (is_some r)) ;;
  ret (match r with
       | Some data => (data, None)
       | None => ("", Some (SysError "ioutil.ReadFile"))
       end).

Definition AppendCertsFromPEM (pool : CertPool) (pem : string) : Go (CertPool * bool) :=
  ok <- interact (fun l => w_AppendCertsFromPEM W l pem) (EvAppendCertsFromPEM pem) ;;
  ret (if ok then (pool ++ [pem])%list else pool, ok).

Definition tls_DialWithDialer (addr : string) (conf : Config)
  : Go (option TLSConn * option error) :=
  ok <- interact (fun l => w_DialTLS W l addr conf) (EvDialTLS addr conf) ;;
  ret (if ok then (Some (TLSDialed addr conf), None)
       else (None, Some (SysError "tls.DialWithDialer"))).

Definition net_Dial (addr : string) : Go (option Conn * option error) :=
  ok <- interact (fun l => w_Dial W l addr) (EvDial addr) ;;
  ret (if ok then (Some (Dialed addr), None) else (None, Some (SysError "net.Dial"))).

Definition tls_Client (c : option Conn) (conf : Config) : Go TLSConn :=
  emit (EvTLSClient conf) ;;; ret (TLSClient c conf).

Definition ctrlConn_Cmd (cmd : string) : Go (option error) :=
  ok <- interact (fun l => w_Cmd W l cmd) (EvCmd cmd) ;;
  ret (sys "textproto.Cmd" ok).

Definition ctrlConn_ReadResponse (expectCode : Z) : Go (Z * string * option error) :=
  r <- interact (w_ReadResponse W) (EvReadResponse expectCode) ;;
  ret (match r with
       | None => (0, "", Some (SysError "textproto.ReadResponse"))
       | Some (c, m) =>
           if code_matches expectCode c then (c, m, None)
           else (c, m, Some (ProtocolError c m))
       end).

Definition net_InterfaceAddrs : Go (list Addr * option error) :=
  r <- interact (w_InterfaceAddrs W)
                (fun r => EvInterfaceAddrs (is_some r)) ;;
  ret (match r with
       | Some addrs => (addrs, None)
       | None => ([], Some (SysError "net.InterfaceAddrs"))
       end).

Definition net_Listen (addr : string) : Go (iface * option error) :=
  ok <- interact (fun l => w_Listen W l addr) (EvListen addr) ;;
  ret (if ok then (IListener addr, None) else (INil, Some (SysError "net.Listen"))).

Definition listener_Accept (addr : string) : Go (option Conn * option error) :=
  ok <- interact (w_Accept W) EvAccept ;;
  ret (if ok then (Some (Accepted addr), None)
       else (None, Some (SysError "Accept"))).

Definition ioutil_ReadAll : Go (string * option error) :=
  r <- interact (w_ReadAll W) (fun r => EvReadAll (is_some r)) ;;
  ret (match r with
       | Some data => (data, None)
       | None => ("", Some (SysError "ioutil.ReadAll"))
       end).

Definition os_Create (path : string) : Go (option error) :=
  ok <- interact (fun l => w_Create W l path) (EvCreate path) ;;
  ret (sys "os.Create" ok).

Definition os_Open (path : string) : Go (option error) :=
  ok <- interact (fun l => w_Open W l path) (EvOpen path) ;;
  ret (sys "os.Open" ok).

Definition io_Copy : Go (Z * option error) :=
  r <- interact (w_Copy W) (fun r => EvCopy (fst r) (snd r)) ;;
  ret (fst r, sys "io.Copy" (snd r)).

Definition Close (what : closer) : Go unit := emit (EvClose what).

(** [xs[i]] on a slice: a run-time panic when out of range. *)
Definition index {A} (xs : list A) (i : nat) : Go A :=
  match nth_error xs i with
  | Some x => ret x
  | None => panic "index out of range"
  end.

(** [p.field] through a pointer: a run-time panic on [nil]. *)
Definition deref {A} (p : option A) : Go A :=
  match p with
  | Some x => ret x
  | None => panic "nil pointer dereference"
  end.

(** *** [getTLSConfig], lines 93-137 *)

Definition suites : list CipherSuite :=
  [ TLS_RSA_WITH_AES_128_CBC_SHA; TLS_RSA_WITH_AES_256_CBC_SHA;
    TLS_ECDHE_ECDSA_WITH_AES_128_CBC_SHA; TLS_ECDHE_ECDSA_WITH_AES_256_CBC_SHA;
    TLS_ECDHE_RSA_WITH_AES_128_CBC_SHA; TLS_ECDHE_RSA_WITH_AES_256_CBC_SHA;
    TLS_ECDHE_RSA_WITH_AES_128_GCM_SHA256; TLS_ECDHE_ECDSA_WITH_AES_128_GCM_SHA256 ].

Definition with_RootCAs (conf : Config) (pool : CertPool) : Config :=
  {| ClientAuth := ClientAuth conf; CipherSuites := CipherSuites conf;
     Certificates := Certificates conf; RootCAs := Some pool;
     ClientCAs := ClientCAs conf; InsecureSkipVerify := InsecureSkipVerify conf |}.

Definition with_Certificates (conf : Config) (pair : Certificate) (pool : CertPool)
  : Config :=
  {| ClientAuth := ClientAuth conf; CipherSuites := CipherSuites conf;
     Certificates := [pair]; RootCAs := RootCAs conf;
     ClientCAs := Some pool; InsecureSkipVerify := InsecureSkipVerify conf |}.

Definition with_InsecureSkipVerify (conf : Config) (b : bool) : Config :=
  {| ClientAuth := ClientAuth conf; CipherSuites := CipherSuites conf;
     Certificates := Certificates conf; RootCAs := RootCAs conf;
     ClientCAs := ClientCAs conf; InsecureSkipVerify := b |}.

Definition getTLSConfig : Go (Config * option error) :=
  p <- get_params ;;
  let conf :=
    {| ClientAuth := VerifyClientCertIfGiven; CipherSuites := suites;
       Certificates := []; RootCAs := None; ClientCAs := None;
       InsecureSkipVerify := false |} in
  if negb (params.cert p =? "")%string && negb (params.key p =? "")%string then
    '(certPair, err) <- tls_LoadX509KeyPair (params.cert p) (params.key p) ;;
    match err with
    | Some e => ret (conf, Some e)
    | None =>
        let certPool : CertPool := [] in
        '(conf, certPool, err) <-
          (if negb (params.rootCA p =? "")%string then
             '(rcaPem, err) <- ioutil_ReadFile "./cert/rcaPem.pem" ;;
             match err with
             | Some e => ret (conf, certPool, Some e)
             | None =>
                 certPool <-
                   (if params.alwaysTrust p then
                      '(pool, ok) <- AppendCertsFromPEM certPool rcaPem ;;
                      if ok then ret pool
                      else panic "Failed to parse the Root Certificate"
                    else ret certPool) ;;
                 ret (with_RootCAs conf certPool, certPool, None)
             end
           else ret (conf, certPool, None)) ;;
        match err with
        | Some e => ret (conf, Some e)
        | None =>
            ret (with_InsecureSkipVerify (with_Certificates conf certPair certPool)
                   (params.alwaysTrust p), None)
        end
    end
  else ret (with_InsecureSkipVerify conf (params.alwaysTrust p), None).

(** *** [connect], lines 36-81 *)

Definition set_rawConn (c : option Conn) : Go unit :=
  set_this (fun t => {| rawConn := c; tlsConn := tlsConn t; ctrlConn := ctrlConn t;
                        params := params t; State := State t |}).
Definition set_tlsConn (c : option TLSConn) : Go unit :=
  set_this (fun t => {| rawConn := rawConn t; tlsConn := c; ctrlConn := ctrlConn t;
                        params := params t; State := State t |}).
Definition set_ctrlConn (c : option TextConn) : Go unit :=
  set_this (fun t => {| rawConn := rawConn t; tlsConn := tlsConn t; ctrlConn := c;
                        params := params t; State := State t |}).
Definition set_State (s : state) : Go unit :=
  set_this (fun t => {| rawConn := rawConn t; tlsConn := tlsConn t;
                        ctrlConn := ctrlConn t; params := params t; State := s |}).

Definition is_IMPLICIT (m : secure_mode) : bool :=
  match m with IMPLICIT => true | EXPLICIT => false end.
Definition is_EXPLICIT (m : secure_mode) : bool :=
  match m with EXPLICIT => true | IMPLICIT => false end.

Definition connect : Go (option FtpResponse * option error) :=
  p <- get_params ;;
  '(ipaddr, err) <- net_LookupIP (params.host p) ;;
  match err with
  | Some e => ret (None, Some e)
  | None =>
      ip0 <- index ipaddr 0 ;;
      let addr := ip0 ++ ":" ++ fmt.Sprintf_d (params.port p) in
      match time_ParseDuration (TIMEOUT W) with
      | Some e => ret (None, Some e)
      | None =>
      match time_ParseDuration (KEEPALIVE W) with
      | Some e => ret (None, Some e)
      | None =>
          err <-
            (if params.secure p && is_IMPLICIT (params.secureMode p) then
               '(conf, err) <- getTLSConfig ;;
               match err with
               | Some e => ret (Some e)
               | None =>
                   '(c, err) <- tls_DialWithDialer addr conf ;;
                   set_tlsConn c ;;;
                   match err with
                   | Some e => ret (Some e)
                   | None => set_ctrlConn (Some (OverTLS c)) ;;; ret None
                   end
               end
             else
               '(c, err) <- net_Dial addr ;;
               set_rawConn c ;;;
               match err with
               | Some e => ret (Some e)
               | None => set_ctrlConn (Some (OverRaw c)) ;;; ret None
               end) ;;
          match err with
          | Some e => ret (None, Some e)
          | None =>
              '(c, m, err) <- ctrlConn_ReadResponse 220 ;;
              match err with
              | Some e => ret (None, Some e)
              | None =>
                  set_State ONLINE ;;;
                  ret (Some {| command := ""; code := c; msg := m |}, None)
              end
          end
      end
      end
  end.

(** *** [secureUpgrade], lines 83-91 *)

Definition secureUpgrade : Go (option error) :=
  '(conf, err) <- getTLSConfig ;;
  match err with
  | Some e => ret (Some e)
  | None =>
      t <- get_this ;;
      c <- tls_Client (rawConn t) conf ;;
      set_tlsConn (Some c) ;;;
      set_ctrlConn (Some (OverTLS (Some c))) ;;;
      ret None
  end.

(** *** [Command], lines 169-187 *)

Definition Command (cmd : string) (expect : Z) : Go (option FtpResponse * option error) :=
  err <- ctrlConn_Cmd cmd ;;
  match err with
  | Some e => ret (None, Some e)
  | None =>
      '(c, m, err) <- ctrlConn_ReadResponse expect ;;
      match err with
      | Some e => ret (None, Some e)
      | None => ret (Some {| command := cmd; code := c; msg := m |}, None)
      end
  end.

(** *** [auth], lines 139-167 *)

Definition auth : Go (list (option FtpResponse) * option error) :=
  p <- get_params ;;
  let res : list (option FtpResponse) := [] in
  '(res, err) <-
    (if params.secure p && is_EXPLICIT (params.secureMode p) then
       '(r, err) <- Command "AUTH TLS" 234 ;;
       match err with
       | Some e => ret (res, Some e)
       | None =>
           let res := (res ++ [r])%list in
           err <- secureUpgrade ;;
           ret (res, err)
       end
     else ret (res, None)) ;;
  match err with
  | Some e => ret (res, Some e)
  | None =>
      '(r, err) <- Command ("USER " ++ params.user p) 331 ;;
      match err with
      | Some e => ret (res, Some e)
      | None =>
          let res := (res ++ [r])%list in
          '(r, err) <- Command ("PASS " ++ params.pass p) 230 ;;
          match err with
          | Some e => ret (res, Some e)
          | None => ret ((res ++ [r])%list, None)
          end
      end
  end.

(** *** [options], lines 189-218 *)

Definition options : Go (list (option FtpResponse) * option error) :=
  p <- get_params ;;
  '(r, err) <- Command "SYST" 215 ;;
  match err with
  | Some e => ret ([], Some e)
  | None =>
      let res := [r] in
      '(r, err) <- Command "FEAT" 211 ;;
      match err with
      | Some e => ret (res, Some e)
      | None =>
          let res := (res ++ [r])%list in
          '(r, err) <- Command "OPTS UTF8 ON" 200 ;;
          match err with
          | Some e => ret (res, Some e)
          | None =>
              let res := (res ++ [r])%list in
              '(res, err) <-
                (if params.secure p then
                   '(r, err) <- Command "PROT P" 200 ;;
                   match err with
                   | Some e => ret (res, Some e)
                   | None => ret ((res ++ [r])%list, None)
                   end
                 else ret (res, None)) ;;
              match err with
              | Some e => ret (res, Some e)
              | None =>
                  '(r, err) <- Command "TYPE I" 200 ;;
                  match err with
                  | Some e => ret (res, Some e)
                  | None => ret ((res ++ [r])%list, None)
                  end
              end
          end
      end
  end.

(** *** [getLocalIP], lines 220-237 *)

Definition getLocalIP : Go (string * option error) :=
  '(addrs, err) <- net_InterfaceAddrs ;;
  match err with
  | Some e => ret ("", Some e)
  | None =>
      let ip :=
        fold_left
          (fun ip addr =>
             match addr with
             | IPNet false (Some v4) => v4
             | _ => ip
             end)
          addrs "" in
      if (ip =? "")%string
      then ret (ip, Some (ErrorsNew "Could not get the Local Address."))
      else ret (ip, None)
  end.

(** *** [getSplitPorts], lines 257-288

    The method only reads [this.params.listenPort]. *)

Definition getSplitPorts (t : Ftp) : Z * Z * option error :=
  let hex := fmt.Sprintf_x (params.listenPort (params t)) in
  match String.length hex with
  | 1%nat | 2%nat =>
      let '(port2, err) := h2i hex in
      (0, port2, err)
  | 3%nat =>
      let p1 := substring 0 1 hex in
      let p2 := substring 1 2 hex in
      match h2i p1 with
      | (port1, Some e) => (port1, 0, Some e)
      | (port1, None) =>
          let '(port2, err) := h2i p2 in
          (port1, port2, err)
      end
  | 4%nat =>
      let p1 := substring 0 2 hex in
      let p2 := substring 2 2 hex in
      match h2i p1 with
      | (port1, Some e) => (port1, 0, Some e)
      | (port1, None) =>
          let '(port2, err) := h2i p2 in
          (port1, port2, err)
      end
  | _ =>
      (0, 0, Some (ErrorsNew
         "The Port Number could not converted to the Parameter Format for the Listen Function."))
  end.

(** *** [port], lines 290-311 *)

Definition port : Go (option FtpResponse * iface * option error) :=
  '(localIP, err) <- getLocalIP ;;
  match err with
  | Some e => ret (None, INil, Some e)
  | None =>
      let ip := strings_Replace localIP "." "," in
      t <- get_this ;;
      let '(p1, p2, err) := getSplitPorts t in
      match err with
      | Some e => ret (None, INil, Some e)
      | None =>
          let cmd := "PORT " ++ ip ++ "," ++ fmt.Sprintf_d p1 ++ "," ++ fmt.Sprintf_d p2 in
          '(res, err) <- Command cmd 200 ;;
          match err with
          | Some e => ret (res, INil, Some e)
          | None =>
              '(listener, err) <-
                net_Listen (localIP ++ ":" ++ fmt.Sprintf_d (params.listenPort (params t))) ;;
              ret (res, listener, err)
          end
      end
  end.

(** *** [pasv], lines 313-341 *)

Definition pasv : Go (option FtpResponse * option Conn * option error) :=
  '(res, err) <- Command "PASV" 227 ;;
  match err with
  | Some e => ret (res, None, Some e)
  | None =>
      p <- get_params ;;
      '(ip, err) <- net_LookupIP (params.host p) ;;
      match err with
      | Some e => ret (res, None, Some e)
      | None =>
          r <- deref res ;;
          let matches := regexp.FindAllStringSubmatch pasv_pattern (msg r) in
          tmp <- index matches 0 ;;
          tmp5 <- index tmp 5 ;;
          match ds2h tmp5 with
          | (_, Some e) => ret (res, None, Some e)
          | (hex1, None) =>
              tmp6 <- index tmp 6 ;;
              match ds2h tmp6 with
              | (_, Some e) => ret (res, None, Some e)
              | (hex2, None) =>
                  match h2i (hex1 ++ hex2) with
                  | (_, Some e) => ret (res, None, Some e)
                  | (port, None) =>
                      ip0 <- index ip 0 ;;
                      let param := ip0 ++ ":" ++ fmt.Sprintf_d port in
                      '(dataConn, err) <- net_Dial param ;;
                      ret (res, dataConn, err)
                  end
              end
          end
      end
  end.

(** *** [readBytes], lines 343-397 *)

Definition readBytes (itf : iface) : Go (option FtpResponse * string * option error) :=
  p <- get_params ;;
  '(dataConn, err) <-
    (if params.passive p then
       match itf with
       | IConn c => ret (Some c, None)
       | _ => ret (None, Some (ErrorsNew
                "Invalid parameter were bound, net.Conn is not found."))
       end
     else
       match itf with
       | IListener a => listener_Accept a
       | _ => ret (None, Some (ErrorsNew
                "Invalid parameter were bound, net.Listener is not found."))
       end) ;;
  match err with
  | Some e => ret (None, "", Some e)
  | None =>
      let confirm (bytes : string) : Go (option FtpResponse * string * option error) :=
        '(c, m, e) <- ctrlConn_ReadResponse 226 ;;
        match e with
        | Some e => ret (None, bytes, Some e)
        | None => ret (Some {| command := ""; code := c; msg := m |}, bytes, None)
        end in
      deferring (Close DataConn)
        (if params.secure p then
           '(conf, err) <- getTLSConfig ;;
           match err with
           | Some e => ret (None, "", Some e)
           | None =>
               dataTLS <- tls_Client dataConn conf ;;
               deferring (Close DataTLS)
                 ('(bytes, err) <- ioutil_ReadAll ;;
                  match err with
                  | Some e => ret (None, bytes, Some e)
                  | None => Close DataTLS ;;; confirm bytes
                  end)
           end
         else
           '(bytes, err) <- ioutil_ReadAll ;;
           match err with
           | Some e => ret (None, bytes, Some e)
           | None => Close DataConn ;;; confirm bytes
           end)
  end.

(** *** [quit], lines 399-414 *)

Definition quit : Go (option FtpResponse * option error) :=
  p <- get_params ;;
  deferring (Close CtrlConn)
    ((if params.secure p then deferring (Close TlsConn) else fun body => body)
       ((if negb (is_IMPLICIT (params.secureMode p))
         then deferring (Close RawConn) else fun body => body)
          (Command "QUIT" 221))).

(** *** [fileTransfer], lines 570-641 *)

Definition fileTransfer (dir : direction) (uri : string) (itf : iface)
  : Go (option FtpResponse * Z * option error) :=
  p <- get_params ;;
  let transfer (rw : closer) : Go (option FtpResponse * Z * option error) :=
    '(r, w, err) <-
      match dir with
      | DOWNLOAD => err <- os_Create uri ;; ret (rw, LocalFile, err)
      | UPLOAD => err <- os_Open uri ;; ret (LocalFile, rw, err)
      | OtherDirection =>
          ret (rw, rw, Some (ErrorsNew
            "The Argument 'direction' must be the either 'DOWNLOAD' or 'UPLOAD'."))
      end ;;
    match err with
    | Some e => ret (None, 0, Some e)
    | None =>
        '(len, err) <- io_Copy ;;
        match err with
        | Some e => ret (None, len, Some e)
        | None =>
            Close r ;;;
            Close w ;;;
            '(c, m, err) <- ctrlConn_ReadResponse 226 ;;
            match err with
            | Some e => ret (None, len, Some e)
            | None => ret (Some {| command := ""; code := c; msg := m |}, len, None)
            end
        end
    end in
  let secured (dataConn : option Conn) : Go (option FtpResponse * Z * option error) :=
    if params.secure p then
      '(conf, err) <- getTLSConfig ;;
      match err with
      | Some e => ret (None, 0, Some e)
      | None =>
          dataTLS <- tls_Client dataConn conf ;;
          deferring (Close DataTLS) (transfer DataTLS)
      end
    else transfer DataConn in
  if params.passive p then
    match itf with
    | IConn c => deferring (Close DataConn) (secured (Some c))
    | _ => ret (None, 0, Some (ErrorsNew
        "Invalid parameter were bound, Value of the argument 'itf' must be the Type 'net.Conn' when the Passive Mode specified by the Parameter."))
    end
  else
    match itf with
    | IListener a =>
        deferring (Close Listener)
          ('(dataConn, err) <- listener_Accept a ;;
           match err with
           | Some e => ret (None, 0, Some e)
           | None => secured dataConn
           end)
    | _ => ret (None, 0, Some (ErrorsNew
        "Invalid parameter were bound, Value of the argument 'itf' must be the Type 'net.Listener' whern the Active Mode speciffied by the Parameter"))
    end.

(** *** [list], [download], [upload], lines 416-540 *)

(** The data-channel negotiation shared by the three wrappers:
    [r, itf, err = this.pasv()] or [r, itf, err = this.port()]. *)
Definition negotiate : Go (option FtpResponse * iface * option error) :=
  p <- get_params ;;
  if params.passive p then
    '(r, c, err) <- pasv ;;
    ret (r, match c with Some c => IConn c | None => INil end, err)
  else port.

(** The closure deferred by each wrapper when [keepAlive] is off.  It
    assigns the enclosing [err] from [quit] whatever [err] held. *)
Definition deferred_quit {X} (results : list (option FtpResponse) * X * option error)
  : Go (list (option FtpResponse) * X * option error) :=
  let '(res, x, _) := results in
  '(r, err) <- quit ;;
  match err with
  | Some e => ret (res, x, Some e)
  | None => ret ((res ++ [r])%list, x, None)
  end.

Definition with_keepAlive {X} (zero : X)
           (body : Go (list (option FtpResponse) * X * option error))
  : Go (list (option FtpResponse) * X * option error) :=
  p <- get_params ;;
  if negb (params.keepAlive p)
  then deferring_closure deferred_quit ([], zero, None) body
  else body.

Definition download (local remote : string)
  : Go (list (option FtpResponse) * Z * option error) :=
  with_keepAlive 0
    (let res : list (option FtpResponse) := [] in
     '(r, itf, err) <- negotiate ;;
     match err with
     | Some e => ret (res, 0, Some e)
     | None =>
         let res := (res ++ [r])%list in
         '(r, err) <- Command ("RETR " ++ remote) 150 ;;
         match err with
         | Some e => ret (res, 0, Some e)
         | None =>
             let res := (res ++ [r])%list in
             '(r, len, err) <- fileTransfer DOWNLOAD local itf ;;
             match err with
             | Some e => ret (res, len, Some e)
             | None => ret ((res ++ [r])%list, len, None)
             end
         end
     end).

Definition upload (local remote : string)
  : Go (list (option FtpResponse) * Z * option error) :=
  with_keepAlive 0
    (let res : list (option FtpResponse) := [] in
     '(r, itf, err) <- negotiate ;;
     match err with
     | Some e => ret (res, 0, Some e)
     | None =>
         let res := (res ++ [r])%list in
         '(r, err) <- Command ("STOR " ++ remote) 150 ;;
         match err with
         | Some e => ret (res, 0, Some e)
         | None =>
             let res := (res ++ [r])%list in
             '(r, len, err) <- fileTransfer UPLOAD local itf ;;
             match err with
             | Some e => ret (res, len, Some e)
             | None => ret ((res ++ [r])%list, len, None)
             end
         end
     end).

(** *** [mkdir], [rmdir], [delete], [rename], lines 542-568 *)

Definition mkdir (p : string) : Go (option FtpResponse * option error) :=
  Command ("MKD " ++ p) 257.

Definition rmdir (p : string) : Go (option FtpResponse * option error) :=
  Command ("RMD " ++ p) 250.

Definition delete (p : string) : Go (option FtpResponse * option error) :=
  Command ("DELE " ++ p) 200.

Definition rename (old new : string) : Go (list (option FtpResponse) * option error) :=
  '(r, err) <- Command ("RNFR " ++ old) 350 ;;
  match err with
  | Some e => ret ([], Some e)
  | None =>
      let res := [r] in
      '(r, err) <- Command ("RNTO " ++ new) 250 ;;
      match err with
      | Some e => ret (res, Some e)
      | None => ret ((res ++ [r])%list, None)
      end
  end.

Definition list (p : string) : Go (Datatypes.list (option FtpResponse) * string * option error) :=
  with_keepAlive ""
    (let res : Datatypes.list (option FtpResponse) := [] in
     let cmd := "LIST -aL " ++ p in
     '(r, itf, err) <- negotiate ;;
     match err with
     | Some e => ret (res, "", Some e)
     | None =>
         let res := (res ++ [r])%list in
         '(r, err) <- Command cmd 150 ;;
         match err with
         | Some e => ret (res, "", Some e)
         | None =>
             let res := (res ++ [r])%list in
             '(r, bytes, err) <- readBytes itf ;;
             match err with
             | Some e => ret (res, "", Some e)
             | None => ret ((res ++ [r])%list, bytes, None)
             end
         end
     end).

End Methods.

(** The events a run appended to the log it started from. *)
Definition since (st st' : Session) : Datatypes.list event :=
  skipn (List.length (log st)) (log st').

(** ** Example worlds

    A server that answers every command with the code the protocol
    prescribes, on a host where every system call succeeds.  The text
    of the reply to [PASV] and the fate of the key-pair load are left
    open. *)

Definition server_reply (pasvText : string) (cmd : string) : Z * string :=
  if String.prefix "AUTH" cmd then (234, "AUTH TLS successful")
  else if String.prefix "USER" cmd then (331, "Password required")
  else if String.prefix "PASS" cmd then (230, "Logged in")
  else if String.prefix "SYST" cmd then (215, "UNIX Type: L8")
  else if String.prefix "FEAT" cmd then (211, "End")
  else if String.prefix "PASV" cmd then (227, pasvText)
  else if String.prefix "LIST" cmd then (150, "Opening data connection")
  else if String.prefix "RETR" cmd then (150, "Opening data connection")
  else if String.prefix "STOR" cmd then (150, "Opening data connection")
  else if String.prefix "QUIT" cmd then (221, "Goodbye")
  else (200, "OK").

Definition example_world (pasvText : string) (keyPairLoads : bool) : World :=
  {| TIMEOUT := "30s";
     KEEPALIVE := "30s";
     w_ParseDuration := fun _ => true;
     w_LookupIP := fun _ _ => Some ["192.0.2.1"];
     w_LoadX509KeyPair := fun _ _ _ => keyPairLoads;
     w_ReadFile := fun _ _ => Some "-----BEGIN CERTIFICATE-----";
     w_AppendCertsFromPEM := fun _ _ => true;
     w_DialTLS := fun _ _ _ => true;
     w_Dial := fun _ _ => true;
     w_Cmd := fun _ _ => true;
     w_ReadResponse := fun l =>
       match last l (EvAccept true) with
       | EvCmd cmd _ => Some (server_reply pasvText cmd)
       | EvDial _ _ | EvDialTLS _ _ _ => Some (220, "ready")
       | _ => Some (226, "Transfer complete")
       end;
     w_InterfaceAddrs := fun _ =>
       Some [IPNet true (Some "127.0.0.1"); OtherAddr; IPNet false (Some "198.51.100.7")];
     w_Listen := fun _ _ => true;
     w_Accept := fun _ => true;
     w_ReadAll := fun _ => Some "drwxr-xr-x 2 ftp ftp 4096 .";
     w_Create := fun _ _ => true;
     w_Open := fun _ _ => true;
     w_Copy := fun _ => (0, true) |}.

Definition example_params (sec : bool) (mode : secure_mode) (pasvMode keep : bool)
           (certPath keyPath rootPath : string) (lport : Z) : ftpParameters :=
  {| params.host := "ftp.example.org"; params.port := 21;
     params.user := "anonymous"; params.pass := "guest";
     params.secure := sec; params.secureMode := mode;
     params.cert := certPath; params.key := keyPath; params.rootCA := rootPath;
     params.alwaysTrust := false; params.passive := pasvMode;
     params.listenPort := lport; params.keepAlive := keep |}.

Definition fresh (p : ftpParameters) : Session := {| this := newFtp p; log := [] |}.

(** * Verification *)

Arguments fmt.Sprintf_x : simpl never.
Arguments fmt.Sprintf_d : simpl never.
Arguments regexp.FindAllStringSubmatch : simpl never.
Arguments strconv.ParseInt : simpl never.
Arguments strconv.Atoi : simpl never.
Arguments h2i : simpl never.
Arguments ds2h : simpl never.
Arguments getSplitPorts : simpl never.
Arguments code_matches : simpl never.
Arguments strings_Replace : simpl never.

(** ** Hexadecimal formatting and parsing *)

Lemma length_string_of_list_ascii (cs : Datatypes.list ascii) :
  String.length (string_of_list_ascii cs) = List.length cs.
Proof.
  induction cs as [|c cs IH]; simpl; [reflexivity | now rewrite IH].
Qed.

Lemma fmt_hex_loop_grows (fuel : nat) :
  forall u buf, (List.length buf <= List.length (fmt.fmt_hex_loop fuel u buf))%nat.
Proof.
  induction fuel as [|fuel IH]; intros u buf; cbn [fmt.fmt_hex_loop].
  - lia.
  - destruct (16 <=? u).
    + specialize (IH (Z.shiftr u 4) (fmt.hex_digit (Z.land u 15) :: buf)).
      cbn [List.length] in IH. lia.
    + cbn [List.length]. lia.
Qed.

Lemma fmt_hex_loop_writes (fuel : nat) (u : Z) (buf : Datatypes.list ascii) :
  (S (List.length buf) <= List.length (fmt.fmt_hex_loop (S fuel) u buf))%nat.
Proof.
  cbn [fmt.fmt_hex_loop]. destruct (16 <=? u).
  - pose proof (fmt_hex_loop_grows fuel (Z.shiftr u 4) (fmt.hex_digit (Z.land u 15) :: buf)) as G.
    cbn [List.length] in G. lia.
  - cbn [List.length]. lia.
Qed.

Lemma fmt_hex_loop_step (fuel : nat) (u : Z) (buf : Datatypes.list ascii) :
  16 <= u ->
  fmt.fmt_hex_loop (S fuel) u buf
  = fmt.fmt_hex_loop fuel (u / 16) (fmt.hex_digit (Z.land u 15) :: buf).
Proof.
  intros Hu. cbn [fmt.fmt_hex_loop].
  destruct (Z.leb_spec 16 u); [|lia].
  now rewrite Z.shiftr_div_pow2 by lia.
Qed.

Lemma Sprintf_x_long (p : Z) :
  65535 < p -> (5 <= String.length (fmt.Sprintf_x p))%nat.
Proof.
  intros Hp. unfold fmt.Sprintf_x.
  destruct (Z.ltb_spec p 0); [lia|].
  rewrite length_string_of_list_ascii, Z.abs_eq by lia.
  assert (H1 : 4096 <= p / 16) by (apply Z.div_le_lower_bound; lia).
  assert (H2 : 256 <= p / 16 / 16) by (apply Z.div_le_lower_bound; lia).
  assert (H3 : 16 <= p / 16 / 16 / 16) by (apply Z.div_le_lower_bound; lia).
  change 16%nat with (S (S (S (S 12)))).
  rewrite 4 fmt_hex_loop_step by lia.
  change 12%nat with (S 11).
  match goal with
  | |- (_ <= List.length (fmt.fmt_hex_loop (S ?f) ?u ?b))%nat =>
      pose proof (fmt_hex_loop_writes f u b) as G
  end.
  cbn [List.length] in G. exact G.
Qed.

Lemma h2i_never_fails (hex : string) : snd (h2i hex) = None.
Proof.
  unfold h2i. now destruct (strconv.ParseInt hex 16) as [r [e|]].
Qed.

Lemma ParseInt_error_shape (s : string) (base n : Z) (e : error) :
  strconv.ParseInt s base = (n, Some e) -> exists k, e = NumError "ParseInt" k.
Proof.
  unfold strconv.ParseInt.
  destruct (list_ascii_of_string s) as [|c rest].
  - intros [= _ <-]. eauto.
  - cbv zeta.
    destruct (strconv.ParseUint _ base) as [un [[|]|]];
      repeat match goal with
             | |- context [if ?b then _ else _] => destruct b
             end; intros [= _ <-] || intros [=]; eauto.
Qed.

Lemma Atoi_error_shape (s : string) (n : Z) (e : error) :
  strconv.Atoi s = (n, Some e) -> exists k, e = NumError "Atoi" k.
Proof.
  unfold strconv.Atoi.
  destruct (strconv.ParseInt s 10) as [m [e'|]] eqn:E.
  - destruct (ParseInt_error_shape _ _ _ _ E) as [k ->].
    intros [= _ <-]. eauto.
  - intros [=].
Qed.

(** ** [getSplitPorts] *)

(** The method depends on the receiver through the listen port only. *)
Definition listening (p : Z) : Ftp :=
  newFtp (example_params false IMPLICIT false true "" "" "" p).

Lemma getSplitPorts_listenPort (t : Ftp) :
  getSplitPorts t = getSplitPorts (listening (params.listenPort (params t))).
Proof. reflexivity. Qed.

Definition default_error : error :=
  ErrorsNew
    "The Port Number could not converted to the Parameter Format for the Listen Function.".

Lemma getSplitPorts_above_16_bits (t : Ftp) :
  65535 < params.listenPort (params t) ->
  getSplitPorts t = (0, 0, Some default_error).
Proof.
  intros Hp. apply Sprintf_x_long in Hp.
  unfold getSplitPorts.
  destruct (String.length (fmt.Sprintf_x (params.listenPort (params t))))
    as [|[|[|[|[|n]]]]]; try lia.
  reflexivity.
Qed.

(** The octets of one port: no error, the byte-pair law, both octets
    in range, and a zero high octet below 256. *)
Definition split_ok (p : Z) : bool :=
  match getSplitPorts (listening p) with
  | (p1, p2, None) =>
      (p1 * 256 + p2 =? p) && (0 <=? p1) && (p1 <=? 255) && (0 <=? p2) && (p2 <=? 255)
      && ((256 <=? p) || (p1 =? 0))
  | (_, _, Some _) => false
  end.

Definition octets : Datatypes.list Z := map Z.of_nat (seq 0 256).

Definition ports_16_bit : Datatypes.list Z :=
  flat_map (fun h => map (fun l => h * 256 + l) octets) octets.

Lemma octets_complete (b : Z) : 0 <= b <= 255 -> In b octets.
Proof.
  intros Hb. unfold octets.
  rewrite <- (Z2Nat.id b) by lia.
  apply in_map, in_seq.
  change (0 + 256)%nat with (Z.to_nat 256). lia.
Qed.

Lemma ports_16_bit_complete (p : Z) : 0 <= p <= 65535 -> In p ports_16_bit.
Proof.
  intros Hp. unfold ports_16_bit.
  apply in_flat_map. exists (p / 256). split.
  - apply octets_complete.
    assert (p / 256 < 256) by (apply Z.div_lt_upper_bound; lia).
    assert (0 <= p / 256) by (apply Z.div_pos; lia).
    lia.
  - rewrite (Z.div_mod p 256) at 1 by lia.
    rewrite Z.mul_comm.
    apply (in_map (fun l => p / 256 * 256 + l)), octets_complete.
    pose proof (Z.mod_pos_bound p 256). lia.
Qed.

Lemma split_ok_all : forallb split_ok ports_16_bit = true.
Proof. vm_cast_no_check (eq_refl true). Qed.

(** C2.  For every listen port [p] in [0, 65535], [getSplitPorts]
    returns without error two octets [p1], [p2] in [0, 255] with
    [p1 * 256 + p2 = p]; below 256 the high octet [p1] is 0. *)
Theorem getSplitPorts_roundtrip (t : Ftp) :
  0 <= params.listenPort (params t) <= 65535 ->
  exists p1 p2,
    getSplitPorts t = (p1, p2, None)
    /\ p1 * 256 + p2 = params.listenPort (params t)
    /\ 0 <= p1 <= 255 /\ 0 <= p2 <= 255
    /\ (params.listenPort (params t) < 256 -> p1 = 0).
Proof.
  intros Hp.
  rewrite getSplitPorts_listenPort.
  set (p := params.listenPort (params t)) in *.
  pose proof (proj1 (forallb_forall split_ok ports_16_bit) split_ok_all p
                (ports_16_bit_complete p Hp)) as Hok.
  unfold split_ok in Hok.
  destruct (getSplitPorts (listening p)) as [[p1 p2] [e|]]; [discriminate|].
  exists p1, p2.
  repeat (apply andb_prop in Hok; destruct Hok as [Hok ?]).
  repeat split; lia.
Qed.

Lemma getSplitPorts_roundtrip_witness :
  0 <= params.listenPort (params (listening 2121)) <= 65535
  /\ exists p1 p2,
      getSplitPorts (listening 2121) = (p1, p2, None)
      /\ p1 * 256 + p2 = 2121
      /\ 0 <= p1 <= 255 /\ 0 <= p2 <= 255
      /\ (2121 < 256 -> p1 = 0).
Proof.
  split; [simpl; lia | apply (getSplitPorts_roundtrip (listening 2121)); simpl; lia].
Defined.

(** ** Runs and their traces *)

(** The commands a trace issued, in order. *)
Definition sent (d : Datatypes.list event) : Datatypes.list string :=
  flat_map (fun e => match e with EvCmd c _ => [c] | _ => [] end) d.

(** A command exchange succeeded: the line was written, and the reply
    was read with the expected code. *)
Definition command_ok (e : event) : bool :=
  match e with
  | EvCmd _ ok => ok
  | EvReadResponse expect (Some (c, _)) => code_matches expect c
  | EvReadResponse _ None => false
  | _ => true
  end.

(** Any interaction succeeded. *)
Definition event_ok (e : event) : bool :=
  match e with
  | EvLookupIP _ ips => is_some ips
  | EvLoadX509KeyPair _ _ ok | EvReadFile _ ok | EvAppendCertsFromPEM _ ok
  | EvDialTLS _ _ ok | EvDial _ ok | EvInterfaceAddrs ok | EvListen _ ok
  | EvAccept ok | EvReadAll ok | EvCreate _ ok | EvOpen _ ok | EvCopy _ ok => ok
  | EvCmd _ _ | EvReadResponse _ _ => command_ok e
  | EvTLSClient _ | EvClose _ => true
  end.

Definition commands_succeed (d : Datatypes.list event) : bool := forallb command_ok d.
Definition steps_succeed (d : Datatypes.list event) : bool := forallb event_ok d.

Lemma since_extend (st st' : Session) (d : Datatypes.list event) :
  log st' = (log st ++ d)%list -> since st st' = d.
Proof.
  unfold since. intros ->.
  rewrite skipn_app, skipn_all, Nat.sub_diag. reflexivity.
Qed.

Lemma since_self (st : Session) : since st st = [].
Proof. apply since_extend. now rewrite app_nil_r. Qed.

Lemma extend_extend (st : Session) (d1 d2 : Datatypes.list event) :
  extend (extend st d1) d2 = extend st (d1 ++ d2).
Proof. unfold extend. simpl. now rewrite app_assoc. Qed.

Lemma sent_app (d1 d2 : Datatypes.list event) : sent (d1 ++ d2) = (sent d1 ++ sent d2)%list.
Proof. apply flat_map_app. Qed.

(** *** Relations every step of a run respects

    A reflexive and transitive relation between the sessions before and
    after that the primitive steps respect is respected by whole
    methods, whether they return or panic. *)

Definition respects (R : Session -> Session -> Prop) {A} (m : Go A) : Prop :=
  forall st, R st (final (m st)).

Section Respects.

Variable R : Session -> Session -> Prop.
Hypothesis R_refl : forall st, R st st.
Hypothesis R_trans : forall st1 st2 st3, R st1 st2 -> R st2 st3 -> R st1 st3.

Lemma respects_ret {A} (a : A) : respects R (ret a).
Proof. intros st. apply R_refl. Qed.

Lemma respects_panic {A} (why : string) : respects R (@panic A why).
Proof. intros st. apply R_refl. Qed.

Lemma respects_get_this : respects R get_this.
Proof. intros st. apply R_refl. Qed.

Lemma respects_get_params : respects R get_params.
Proof. intros st. apply R_refl. Qed.

Lemma respects_bind {A B} (m : Go A) (k : A -> Go B) :
  respects R m -> (forall a, respects R (k a)) -> respects R (bind m k).
Proof.
  intros Hm Hk st. unfold bind.
  specialize (Hm st). destruct (m st) as [a st'|why st']; simpl in *.
  - eapply R_trans; [exact Hm | apply Hk].
  - exact Hm.
Qed.

Lemma respects_deferring {A} (f : Go unit) (body : Go A) :
  respects R f -> respects R body -> respects R (deferring f body).
Proof.
  intros Hf Hb st. unfold deferring.
  specialize (Hb st). destruct (body st) as [a st'|why st']; simpl in *.
  - specialize (Hf st'). destruct (f st') as [u st''|why st'']; simpl in *;
      eapply R_trans; eauto.
  - eapply R_trans; [exact Hb | apply Hf].
Qed.

Lemma respects_deferring_closure {A} (f : A -> Go A) (dead : A) (body : Go A) :
  (forall a, respects R (f a)) -> respects R body ->
  respects R (deferring_closure f dead body).
Proof.
  intros Hf Hb st. unfold deferring_closure.
  specialize (Hb st). destruct (body st) as [a st'|why st']; simpl in *;
    (eapply R_trans; [exact Hb | apply Hf]).
Qed.

Lemma respects_index {A} (xs : Datatypes.list A) (i : nat) : respects R (index xs i).
Proof. unfold index. destruct (nth_error xs i); [apply respects_ret | apply respects_panic]. Qed.

Lemma respects_deref {A} (p : option A) : respects R (deref p).
Proof. unfold deref. destruct p; [apply respects_ret | apply respects_panic]. Qed.

End Respects.

(** Walks the body of a method: binds, deferred calls and case
    distinctions are taken apart; the leaves are closed from the hint
    database [go]. *)
Ltac walk :=
  repeat first
    [ solve [ eauto 3 with go ]
    | progress cbv zeta
    | progress intros
    | apply respects_bind
    | apply respects_deferring
    | apply respects_deferring_closure
    | match goal with
      | |- respects _ (match ?x with _ => _ end) => destruct x
      | |- respects _ (if ?b then _ else _) => destruct b
      | |- respects _ ((if ?b then _ else _) _) => destruct b
      end ].

Create HintDb go.
#[export] Hint Resolve respects_ret respects_panic respects_get_this respects_get_params
  respects_index respects_deref : go.

(** *** The session state never leaves [ONLINE] *)

Definition stays_online (st st' : Session) : Prop :=
  State (this st) = ONLINE -> State (this st') = ONLINE.

Lemma stays_online_refl (st : Session) : stays_online st st.
Proof. now intros H. Qed.

Lemma stays_online_trans (st1 st2 st3 : Session) :
  stays_online st1 st2 -> stays_online st2 st3 -> stays_online st1 st3.
Proof. unfold stays_online. auto. Qed.

#[export] Hint Resolve stays_online_refl stays_online_trans : go.

Lemma online_interact {A} (ask : Datatypes.list event -> A) (ev : A -> event) :
  respects stays_online (interact ask ev).
Proof. now intros st H. Qed.

Lemma online_emit (e : event) : respects stays_online (emit e).
Proof. now intros st H. Qed.

Lemma online_set_rawConn c : respects stays_online (set_rawConn c).
Proof. now intros st H. Qed.

Lemma online_set_tlsConn c : respects stays_online (set_tlsConn c).
Proof. now intros st H. Qed.

Lemma online_set_ctrlConn c : respects stays_online (set_ctrlConn c).
Proof. now intros st H. Qed.

Lemma online_set_State_ONLINE : respects stays_online (set_State ONLINE).
Proof. now intros st H. Qed.

#[export] Hint Resolve online_interact online_emit online_set_rawConn online_set_tlsConn
  online_set_ctrlConn online_set_State_ONLINE : go.

(** Unfolds the calls into the standard library down to the primitive
    steps. *)
Ltac prims :=
  unfold net_LookupIP, tls_LoadX509KeyPair, ioutil_ReadFile, AppendCertsFromPEM,
    tls_DialWithDialer, net_Dial, tls_Client, ctrlConn_Cmd, ctrlConn_ReadResponse,
    net_InterfaceAddrs, net_Listen, listener_Accept, ioutil_ReadAll, os_Create,
    os_Open, io_Copy, Close.

Lemma online_getTLSConfig W : respects stays_online (getTLSConfig W).
Proof. unfold getTLSConfig; prims; walk. Qed.
#[export] Hint Resolve online_getTLSConfig : go.

Lemma online_connect W : respects stays_online (connect W).
Proof. unfold connect; prims; walk. Qed.

Lemma online_secureUpgrade W : respects stays_online (secureUpgrade W).
Proof. unfold secureUpgrade; prims; walk. Qed.

Lemma online_Command W cmd expect : respects stays_online (Command W cmd expect).
Proof. unfold Command; prims; walk. Qed.
#[export] Hint Resolve online_connect online_secureUpgrade online_Command : go.

Lemma online_auth W : respects stays_online (auth W).
Proof. unfold auth; walk. Qed.

Lemma online_options W : respects stays_online (options W).
Proof. unfold options; walk. Qed.

Lemma online_getLocalIP W : respects stays_online (getLocalIP W).
Proof. unfold getLocalIP; prims; walk. Qed.
#[export] Hint Resolve online_auth online_options online_getLocalIP : go.

Lemma online_port W : respects stays_online (port W).
Proof. unfold port; prims; walk. Qed.

Lemma online_pasv W : respects stays_online (pasv W).
Proof. unfold pasv; prims; walk. Qed.

Lemma online_readBytes W itf : respects stays_online (readBytes W itf).
Proof. unfold readBytes; prims; walk. Qed.

Lemma online_fileTransfer W dir uri itf : respects stays_online (fileTransfer W dir uri itf).
Proof. unfold fileTransfer; prims; walk. Qed.

Lemma online_quit W : respects stays_online (quit W).
Proof. unfold quit; prims; walk. Qed.
#[export] Hint Resolve online_port online_pasv online_readBytes online_fileTransfer
  online_quit : go.

Lemma online_negotiate W : respects stays_online (negotiate W).
Proof. unfold negotiate; walk. Qed.

Lemma online_deferred_quit W X (r : Datatypes.list (option FtpResponse) * X * option error) :
  respects stays_online (deferred_quit W r).
Proof. unfold deferred_quit; walk. Qed.
#[export] Hint Resolve online_negotiate online_deferred_quit : go.

Lemma online_with_keepAlive W X (zero : X) body :
  respects stays_online body -> respects stays_online (with_keepAlive W zero body).
Proof. intros Hb. unfold with_keepAlive; walk. Qed.

Lemma online_download W l r : respects stays_online (download W l r).
Proof. unfold download. apply online_with_keepAlive. walk. Qed.

Lemma online_upload W l r : respects stays_online (upload W l r).
Proof. unfold upload. apply online_with_keepAlive. walk. Qed.

Lemma online_list W p : respects stays_online (list W p).
Proof. unfold list. apply online_with_keepAlive. walk. Qed.

Lemma online_mkdir W p : respects stays_online (mkdir W p).
Proof. unfold mkdir; walk. Qed.

Lemma online_rmdir W p : respects stays_online (rmdir W p).
Proof. unfold rmdir; walk. Qed.

Lemma online_delete W p : respects stays_online (delete W p).
Proof. unfold delete; walk. Qed.

Lemma online_rename W o n : respects stays_online (rename W o n).
Proof. unfold rename; walk. Qed.

(** *** What a run appends to the log *)

(** The run only appends events, and each appended event satisfies [P]. *)
Definition emits (P : event -> Prop) (st st' : Session) : Prop :=
  exists d, log st' = (log st ++ d)%list /\ Forall P d.

Lemma emits_refl P (st : Session) : emits P st st.
Proof. exists []. now rewrite app_nil_r. Qed.

Lemma emits_trans P (st1 st2 st3 : Session) :
  emits P st1 st2 -> emits P st2 st3 -> emits P st1 st3.
Proof.
  intros [d1 [E1 F1]] [d2 [E2 F2]]. exists (d1 ++ d2)%list. split.
  - now rewrite E2, E1, app_assoc.
  - now apply Forall_app.
Qed.

Lemma emits_interact P {A} (ask : Datatypes.list event -> A) (ev : A -> event) :
  (forall a, P (ev a)) -> respects (emits P) (interact ask ev).
Proof. intros H st. exists [ev (ask (log st))]. split; [reflexivity | auto]. Qed.

Lemma emits_emit P (e : event) : P e -> respects (emits P) (emit e).
Proof. intros H st. exists [e]. split; [reflexivity | auto]. Qed.

Lemma emits_set_this P (f : Ftp -> Ftp) : respects (emits P) (set_this f).
Proof. intros st. exists []. simpl. now rewrite app_nil_r. Qed.

Lemma emits_since P (st st' : Session) : emits P st st' -> Forall P (since st st').
Proof. intros [d [E F]]. now rewrite (since_extend _ _ _ E). Qed.

Lemma emits_log P (st st' : Session) :
  emits P st st' -> log st' = (log st ++ since st st')%list.
Proof. intros [d [E F]]. now rewrite (since_extend _ _ _ E). Qed.

Definition is_command (e : event) : Prop :=
  match e with EvCmd _ _ => True | _ => False end.

(** The methods that never call [quit], for any [P] that holds of the
    events other than the sending of [QUIT]. *)
Section Emits.

Variable P : event -> Prop.
Hypothesis P_cmd : forall c ok, c <> "QUIT" -> P (EvCmd c ok).
Hypothesis P_other : forall e, ~ is_command e -> P e.
Variable W : World.

#[local] Hint Resolve emits_refl emits_trans emits_interact emits_emit emits_set_this : go.
#[local] Hint Extern 1 (P (EvCmd _ _)) => apply P_cmd; simpl; discriminate : go.
#[local] Hint Extern 2 (P _) => apply P_other; simpl; tauto : go.
#[local] Hint Extern 1 (respects _ (set_rawConn _)) => apply emits_set_this : go.
#[local] Hint Extern 1 (respects _ (set_tlsConn _)) => apply emits_set_this : go.
#[local] Hint Extern 1 (respects _ (set_ctrlConn _)) => apply emits_set_this : go.
#[local] Hint Extern 1 (respects _ (set_State _)) => apply emits_set_this : go.

Lemma emits_getTLSConfig : respects (emits P) (getTLSConfig W).
Proof. unfold getTLSConfig; prims; walk. Qed.
#[local] Hint Resolve emits_getTLSConfig : go.

Lemma emits_connect : respects (emits P) (connect W).
Proof. unfold connect; prims; walk. Qed.

Lemma emits_secureUpgrade : respects (emits P) (secureUpgrade W).
Proof. unfold secureUpgrade; prims; walk. Qed.

Lemma emits_Command cmd expect :
  cmd <> "QUIT" -> respects (emits P) (Command W cmd expect).
Proof. intros Hc. unfold Command; prims; walk. Qed.
#[local] Hint Resolve emits_secureUpgrade : go.
#[local] Hint Extern 1 (respects _ (Command _ _ _)) =>
  apply emits_Command; simpl; discriminate : go.

Lemma emits_auth : respects (emits P) (auth W).
Proof. unfold auth; walk. Qed.

Lemma emits_options : respects (emits P) (options W).
Proof. unfold options; walk. Qed.

Lemma emits_getLocalIP : respects (emits P) (getLocalIP W).
Proof. unfold getLocalIP; prims; walk. Qed.
#[local] Hint Resolve emits_getLocalIP : go.

Lemma emits_port : respects (emits P) (port W).
Proof. unfold port; prims; walk. Qed.

Lemma emits_pasv : respects (emits P) (pasv W).
Proof. unfold pasv; prims; walk. Qed.

Lemma emits_readBytes itf : respects (emits P) (readBytes W itf).
Proof. unfold readBytes; prims; walk. Qed.

Lemma emits_fileTransfer dir uri itf : respects (emits P) (fileTransfer W dir uri itf).
Proof. unfold fileTransfer; prims; walk. Qed.
#[local] Hint Resolve emits_port emits_pasv emits_readBytes emits_fileTransfer : go.

Lemma emits_negotiate : respects (emits P) (negotiate W).
Proof. unfold negotiate; walk. Qed.

End Emits.

(** *** The two outcomes of a command exchange *)

Arguments Command : simpl never.
Arguments getTLSConfig : simpl never.

Lemma since_extended (st : Session) (d : Datatypes.list event) : since st (extend st d) = d.
Proof. now apply since_extend. Qed.

Lemma since_extended_this (st : Session) (t : Ftp) (d : Datatypes.list event) :
  since st {| this := t; log := (log st ++ d)%list |} = d.
Proof. now apply since_extend. Qed.

Lemma commands_succeed_app (d1 d2 : Datatypes.list event) :
  commands_succeed (d1 ++ d2) = commands_succeed d1 && commands_succeed d2.
Proof. apply forallb_app. Qed.

Lemma steps_succeed_app (d1 d2 : Datatypes.list event) :
  steps_succeed (d1 ++ d2) = steps_succeed d1 && steps_succeed d2.
Proof. apply forallb_app. Qed.

Lemma steps_commands (d : Datatypes.list event) :
  steps_succeed d = true -> commands_succeed d = true.
Proof.
  unfold steps_succeed, commands_succeed. rewrite !forallb_forall.
  intros H e He. specialize (H e He). now destruct e.
Qed.

(** [Command] either completes the exchange with the expected code and
    returns the response, or fails on its one command and returns an
    error; it never touches the receiver. *)
Lemma Command_run (W : World) (cmd : string) (expect : Z) (st : Session) :
  (exists c m,
      code_matches expect c = true
      /\ Command W cmd expect st
         = Return (Some {| command := cmd; code := c; msg := m |}, None)
             (extend st [EvCmd cmd true; EvReadResponse expect (Some (c, m))]))
  \/ (exists e d,
         commands_succeed d = false /\ sent d = [cmd]
         /\ Command W cmd expect st = Return (None, Some e) (extend st d)).
Proof.
  unfold Command, ctrlConn_Cmd, ctrlConn_ReadResponse, bind, interact, ret, extend.
  cbn [log this].
  destruct (w_Cmd W (log st) cmd) eqn:Ew; cbn [sys log this].
  - destruct (w_ReadResponse W (log st ++ [EvCmd cmd true])) as [[c m]|] eqn:Er.
    + destruct (code_matches expect c) eqn:Ec.
      * left. exists c, m. split; [exact Ec|].
        now rewrite <- app_assoc.
      * right. eexists _, _. rewrite <- app_assoc.
        split; [|split]; [ | | reflexivity]; cbn; rewrite ?Ec; reflexivity.
    + right. eexists _, _. rewrite <- app_assoc.
      split; [|split]; [ | | reflexivity]; reflexivity.
  - right. eexists _, _.
    split; [|split]; [ | | reflexivity]; reflexivity.
Qed.

(** Computes [since st st'] in [H] when the log of [st'] is syntactically
    the log of [st] followed by more events. *)
Ltac since_norm H :=
  erewrite since_extend in H
    by (cbn [log extend this]; rewrite <- ?app_assoc; reflexivity).

(** One step of a method body whose next call is a [Command]: the
    failing outcome contradicts the hypothesis that the commands of the
    run succeed. *)
Ltac exchange H :=
  match goal with
  | |- context [Command ?W ?cmd ?expect ?st] =>
      let c := fresh "c" in
      let m := fresh "m" in
      let Hc := fresh "Hc" in
      let e := fresh "e" in
      let d := fresh "d" in
      let Hd := fresh "Hd" in
      let Hs := fresh "Hs" in
      let E := fresh "E" in
      cbv beta in H;
      destruct (Command_run W cmd expect st)
        as [(c & m & Hc & E) | (e & d & Hd & Hs & E)];
      rewrite E in H |- *; clear E;
      cbv beta iota in H; cbn [final fst snd] in *; rewrite ?extend_extend in *;
      [ | exfalso; since_norm H;
          try apply steps_commands in H;
          rewrite ?commands_succeed_app in H;
          repeat match goal with
                 | Hx : (_ && _)%bool = true |- _ => apply andb_prop in Hx; destruct Hx
                 end; congruence ]
  end.

Definition commands_of (res : Datatypes.list (option FtpResponse)) : Datatypes.list (option string) :=
  map (option_map command) res.

(** ** [options] *)

(** C5.  In a run of [options] whose commands all succeed, the commands
    issued are [SYST], [FEAT], [OPTS UTF8 ON], then [PROT P] exactly
    when [secure] is set, then [TYPE I] as the last one; the responses
    are returned in that order. *)
Theorem options_sequence (W : World) (st : Session) :
  commands_succeed (since st (final (options W st))) = true ->
  let expected :=
    (["SYST"; "FEAT"; "OPTS UTF8 ON"]
       ++ (if params.secure (params (this st)) then ["PROT P"] else [])
       ++ ["TYPE I"])%list in
  exists res st',
    options W st = Return (res, None) st'
    /\ commands_of res = map Some expected
    /\ sent (since st st') = expected
    /\ last (sent (since st st')) "" = "TYPE I"
    /\ (In "PROT P" (sent (since st st')) <-> params.secure (params (this st)) = true).
Proof.
  intros H expected. subst expected.
  unfold options, get_params, bind, ret in *. cbn [final] in *.
  exchange H. exchange H. exchange H.
  cbn [this extend] in *.
  destruct (params.secure (params (this st))) eqn:Esec.
  - exchange H. exchange H.
    eexists _, _. split; [reflexivity|].
    rewrite since_extended. cbn. repeat split; auto.
  - exchange H.
    eexists _, _. split; [reflexivity|].
    rewrite since_extended. cbn. repeat split; auto; try discriminate.
    intros [E|[E|[E|[E|[]]]]]; discriminate.
Qed.

(** A session on which every command is answered as the protocol
    prescribes, for the examples below. *)
Definition example_server : World := example_world "Entering Passive Mode (10,0,0,5,200,13)" true.

Definition explicit_session : Session :=
  fresh (example_params true EXPLICIT true true "client.pem" "client.key" "" 2121).

Lemma options_sequence_witness :
  commands_succeed (since explicit_session (final (options example_server explicit_session)))
  = true
  /\ exists res st',
      options example_server explicit_session = Return (res, None) st'
      /\ sent (since explicit_session st')
         = ["SYST"; "FEAT"; "OPTS UTF8 ON"; "PROT P"; "TYPE I"].
Proof.
  split; [vm_compute; reflexivity|].
  destruct (options_sequence example_server explicit_session)
    as (res & st' & E & _ & Hs & _); [vm_compute; reflexivity|].
  exists res, st'. split; [exact E | exact Hs].
Defined.

(** ** [getTLSConfig] and [auth] *)

(** [getTLSConfig] sends nothing; it returns a configuration without
    error exactly when each file it touches loads. *)
Lemma getTLSConfig_run (W : World) (st : Session) :
  exists d,
    sent d = []
    /\ ((steps_succeed d = true
         /\ exists conf, getTLSConfig W st = Return (conf, None) (extend st d))
        \/ (steps_succeed d = false
            /\ ((exists conf e, getTLSConfig W st = Return (conf, Some e) (extend st d))
                \/ exists why, getTLSConfig W st = Panic why (extend st d)))).
Proof.
  unfold getTLSConfig, tls_LoadX509KeyPair, ioutil_ReadFile, AppendCertsFromPEM,
    get_params, bind, interact, ret, panic.
  cbn [log this extend].
  destruct (negb (params.cert (params (this st)) =? "")%string
            && negb (params.key (params (this st)) =? "")%string).
  2:{ exists []. split; [reflexivity|]. left. split; [reflexivity|].
      eexists. unfold extend. now rewrite app_nil_r; destruct st. }
  destruct (w_LoadX509KeyPair W (log st) _ _) eqn:Ek; cbn [sys].
  2:{ eexists. split; [|right; split; [|left; eexists _, _; reflexivity]];
      cbn; now rewrite ?Ek. }
  destruct (negb (params.rootCA (params (this st)) =? "")%string).
  2:{ eexists. split; [|left; split; [|eexists; reflexivity]]; cbn; now rewrite ?Ek. }
  cbn [log this extend].
  match goal with
  | |- context [w_ReadFile W ?l ?f] => destruct (w_ReadFile W l f) as [pem|] eqn:Ef
  end.
  2:{ eexists. rewrite extend_extend.
      split; [|right; split; [|left; eexists _, _; reflexivity]]; cbn; now rewrite ?Ek. }
  destruct (params.alwaysTrust (params (this st))).
  2:{ eexists. rewrite extend_extend.
      split; [|left; split; [|eexists; reflexivity]]; cbn; now rewrite ?Ek. }
  cbn [log this extend].
  match goal with
  | |- context [w_AppendCertsFromPEM W ?l ?f] =>
      destruct (w_AppendCertsFromPEM W l f) eqn:Ea
  end.
  - eexists. rewrite !extend_extend.
    split; [|left; split; [|eexists; reflexivity]]; cbn; now rewrite ?Ek, ?Ea.
  - eexists. rewrite !extend_extend.
    split; [|right; split; [|right; eexists; reflexivity]]; cbn;
      now rewrite ?Ek, ?Ea, ?andb_false_r.
Qed.

Arguments secureUpgrade : simpl never.

Ltac since_norm_goal :=
  erewrite since_extend
    by (cbn [log extend this]; rewrite <- ?app_assoc; reflexivity).

Ltac split_ands :=
  repeat match goal with
         | Hx : (_ && _)%bool = true |- _ => apply andb_prop in Hx; destruct Hx
         end.

(** [secureUpgrade] sends nothing and leaves the parameters alone; it
    returns without error exactly when the configuration loads. *)
Lemma secureUpgrade_run (W : World) (st : Session) :
  exists d t,
    sent d = [] /\ params t = params (this st)
    /\ ((steps_succeed d = true
         /\ secureUpgrade W st = Return None {| this := t; log := (log st ++ d)%list |})
        \/ (steps_succeed d = false
            /\ ((exists e, secureUpgrade W st
                           = Return (Some e) {| this := t; log := (log st ++ d)%list |})
                \/ exists why, secureUpgrade W st
                               = Panic why {| this := t; log := (log st ++ d)%list |}))).
Proof.
  unfold secureUpgrade, bind.
  destruct (getTLSConfig_run W st)
    as (d & Hs & [[Hok [conf E]] | [Hbad [(conf & e & E) | (why & E)]]]); rewrite E.
  - exists (d ++ [EvTLSClient conf])%list. eexists.
    split; [|split; [|left; split]].
    4:{ unfold tls_Client, set_tlsConn, set_ctrlConn, set_this, get_this, emit, bind, ret, extend.
        cbn [log this]. rewrite <- app_assoc. reflexivity. }
    + rewrite sent_app, Hs. reflexivity.
    + reflexivity.
    + rewrite steps_succeed_app, Hok. reflexivity.
  - exists d, (this st). split; [exact Hs|]. split; [reflexivity|].
    right. split; [exact Hbad|]. left. exists e. reflexivity.
  - exists d, (this st). split; [exact Hs|]. split; [reflexivity|].
    right. split; [exact Hbad|]. right. exists why. reflexivity.
Qed.

Definition wants_AUTH (p : ftpParameters) : bool :=
  params.secure p && is_EXPLICIT (params.secureMode p).

Definition auth_commands (p : ftpParameters) : Datatypes.list string :=
  ((if wants_AUTH p then ["AUTH TLS"] else [])
     ++ [("USER " ++ params.user p)%string; ("PASS " ++ params.pass p)%string])%list.

(** C4, as amended.  In a run of [auth] in which every step succeeds
    (each command is answered with its expected code and, in explicit
    mode, the TLS configuration of the upgrade loads), the responses
    returned are those of [AUTH TLS], [USER], [PASS], three in that
    order, when [secure] is set with mode [EXPLICIT], and those of
    [USER], [PASS], two in that order, otherwise. *)
Theorem auth_sequence (W : World) (st : Session) :
  steps_succeed (since st (final (auth W st))) = true ->
  exists res st',
    auth W st = Return (res, None) st'
    /\ commands_of res = map Some (auth_commands (params (this st)))
    /\ sent (since st st') = auth_commands (params (this st))
    /\ List.length res = (if wants_AUTH (params (this st)) then 3 else 2)%nat.
Proof.
  intros H.
  unfold auth_commands, wants_AUTH, auth, get_params, bind, ret in *. cbn [final] in *.
  destruct (params.secure (params (this st)) && is_EXPLICIT (params.secureMode (params (this st)))).
  - exchange H. cbv beta in H.
    destruct (secureUpgrade_run W
                (extend st [EvCmd "AUTH TLS" true; EvReadResponse 234 (Some (c, m))]))
      as (d & t & Hs & Ht & [[Hok E] | [Hbad [(e & E) | (why & E)]]]);
      rewrite E in H |- *; clear E; cbv beta iota in H; cbn [final log extend] in *.
    + exchange H. exchange H.
      eexists _, _. split; [reflexivity|].
      since_norm_goal. rewrite !sent_app, Hs. cbn. auto.
    + exfalso. since_norm H. rewrite !steps_succeed_app in H. split_ands. congruence.
    + exfalso. since_norm H. rewrite !steps_succeed_app in H. split_ands. congruence.
  - exchange H. exchange H.
    eexists _, _. split; [reflexivity|].
    since_norm_goal. cbn. auto.
Qed.

Lemma auth_sequence_witness :
  steps_succeed (since explicit_session (final (auth example_server explicit_session))) = true
  /\ exists res st',
      auth example_server explicit_session = Return (res, None) st'
      /\ commands_of res = [Some "AUTH TLS"; Some "USER anonymous"; Some "PASS guest"]
      /\ List.length res = 3%nat.
Proof.
  split; [vm_compute; reflexivity|].
  destruct (auth_sequence example_server explicit_session)
    as (res & st' & E & Hc & _ & Hl); [vm_compute; reflexivity|].
  exists res, st'. split; [exact E|]. split; [exact Hc | exact Hl].
Defined.

(** C4 with the hypothesis on the commands alone: whenever the commands
    of the run succeed, [auth] returns the responses of
    [auth_commands]. *)
Definition auth_claim_as_stated (W : World) (st : Session) : Prop :=
  commands_succeed (since st (final (auth W st))) = true ->
  exists res err st',
    auth W st = Return (res, err) st'
    /\ commands_of res = map Some (auth_commands (params (this st))).

(** A host on which the client key pair does not load. *)
Definition keyless_host : World := example_world "" false.

(** C4 fails on [keyless_host] in explicit mode: the server answers
    [AUTH TLS] with 234, [secureUpgrade] fails on the key pair, and
    [auth] returns the one response it has together with the error,
    although every command it issued succeeded. *)
Lemma auth_claim_as_stated_fails : ~ auth_claim_as_stated keyless_host explicit_session.
Proof.
  intros Hclaim.
  destruct Hclaim as (res & err & st' & E & Hc); [vm_compute; reflexivity|].
  vm_compute in E. injection E as <- _ _.
  vm_compute in Hc. discriminate Hc.
Qed.

(** ** [quit] and the keep-alive flag *)

Arguments quit : simpl never.
Arguments negotiate : simpl never.
Arguments readBytes : simpl never.
Arguments fileTransfer : simpl never.

Lemma code_matches_exact (expect c : Z) :
  100 <= expect < 1000 -> code_matches expect c = true -> c = expect.
Proof. unfold code_matches. lia. Qed.

(** [quit] sends [QUIT] and nothing else; when it returns without
    error, its response is the 221 reply to that command. *)
Lemma quit_run (W : World) (st : Session) :
  exists d,
    sent d = ["QUIT"]
    /\ ((exists m, quit W st
                   = Return (Some {| command := "QUIT"; code := 221; msg := m |}, None)
                       (extend st d))
        \/ (exists e, quit W st = Return (None, Some e) (extend st d))).
Proof.
  unfold quit, get_params, bind.
  destruct (params.secure (params (this st)));
    destruct (negb (is_IMPLICIT (params.secureMode (params (this st)))));
    unfold deferring, Close, emit;
    (destruct (Command_run W "QUIT" 221 st)
      as [(c & m & Hc & E) | (e & d & Hd & Hs & E)]; rewrite E; clear E;
     [ apply code_matches_exact in Hc; [subst c | lia] | ]);
    rewrite ?extend_extend; eexists;
    (split; [ | first [ left; eexists; reflexivity | right; eexists; reflexivity ] ]);
    rewrite ?sent_app, ?Hs; reflexivity.
Qed.

(** What a list of responses and a trace look like when [QUIT] came
    last. *)
Definition ends_with_quit (res : Datatypes.list (option FtpResponse))
           (d : Datatypes.list event) : Prop :=
  exists res0 m cmds,
    res = (res0 ++ [Some {| command := "QUIT"; code := 221; msg := m |}])%list
    /\ sent d = (cmds ++ ["QUIT"])%list.

Definition any_event (e : event) : Prop := True.
Definition no_quit (e : event) : Prop := forall ok, e <> EvCmd "QUIT" ok.

Lemma no_quit_sent (d : Datatypes.list event) : Forall no_quit d -> ~ In "QUIT" (sent d).
Proof.
  induction 1 as [|e d He Hd IH]; [easy|].
  change (e :: d) with ([e] ++ d)%list. rewrite sent_app, in_app_iff.
  intros [Hin|Hin]; [|auto].
  destruct e; cbn in Hin; try easy.
  destruct Hin as [E|[]]. subst cmd. now apply (He ok).
Qed.

(** With [keepAlive] off, a wrapper that returns without error has
    appended the response of [QUIT] last. *)
Lemma with_keepAlive_off (W : World) {X} (zero : X)
      (body : Go (Datatypes.list (option FtpResponse) * X * option error))
      (st st' : Session) res x :
  respects (emits any_event) body ->
  params.keepAlive (params (this st)) = false ->
  with_keepAlive W zero body st = Return (res, x, None) st' ->
  ends_with_quit res (since st st').
Proof.
  intros Hb Hk. unfold with_keepAlive, get_params, bind. rewrite Hk. cbn [negb].
  unfold deferring_closure.
  specialize (Hb st). apply emits_log in Hb.
  destruct (body st) as [[[res0 x0] err0] st1|why st1]; [|discriminate].
  cbn [final] in Hb.
  unfold deferred_quit, bind.
  destruct (quit_run W st1) as (d & Hs & [[m E] | [e E]]); rewrite E; cbn [ret];
    intros [= <- <- <-].
  exists res0, m, (sent (since st st1)). split; [reflexivity|].
  erewrite since_extend by (cbn [log extend]; rewrite Hb, <- app_assoc; reflexivity).
  now rewrite sent_app, Hs.
Qed.

(** With [keepAlive] on, a wrapper sends what its body sends. *)
Lemma with_keepAlive_on (W : World) {X} (zero : X)
      (body : Go (Datatypes.list (option FtpResponse) * X * option error))
      (st : Session) :
  respects (emits no_quit) body ->
  params.keepAlive (params (this st)) = true ->
  ~ In "QUIT" (sent (since st (final (with_keepAlive W zero body st)))).
Proof.
  intros Hb Hk. unfold with_keepAlive, get_params, bind. rewrite Hk. cbn [negb].
  apply no_quit_sent, emits_since, Hb.
Qed.

(** The bodies of the three wrappers never call [quit]. *)
Section Bodies.

Variable P : event -> Prop.
Hypothesis P_cmd : forall c ok, c <> "QUIT" -> P (EvCmd c ok).
Hypothesis P_other : forall e, ~ is_command e -> P e.
Variable W : World.

#[local] Hint Resolve emits_refl emits_trans : go.
#[local] Hint Extern 1 (respects _ (negotiate _)) => apply emits_negotiate; assumption : go.
#[local] Hint Extern 1 (respects _ (readBytes _ _)) => apply emits_readBytes; assumption : go.
#[local] Hint Extern 1 (respects _ (fileTransfer _ _ _ _)) =>
  apply emits_fileTransfer; assumption : go.
#[local] Hint Extern 1 (respects _ (Command _ _ _)) =>
  apply emits_Command; [assumption | assumption | simpl; discriminate] : go.

Lemma list_body (p : string) :
  exists body, list W p = with_keepAlive W "" body /\ respects (emits P) body.
Proof. eexists. split; [reflexivity | walk]. Qed.

Lemma download_body (l r : string) :
  exists body, download W l r = with_keepAlive W 0 body /\ respects (emits P) body.
Proof. eexists. split; [reflexivity | walk]. Qed.

Lemma upload_body (l r : string) :
  exists body, upload W l r = with_keepAlive W 0 body /\ respects (emits P) body.
Proof. eexists. split; [reflexivity | walk]. Qed.

End Bodies.

Lemma no_quit_cmd (c : string) (ok : bool) : c <> "QUIT" -> no_quit (EvCmd c ok).
Proof. intros Hc ok' [= E _]. contradiction. Qed.

Lemma no_quit_other (e : event) : ~ is_command e -> no_quit e.
Proof. intros He ok ->. now apply He. Qed.

(** C6.  With [keepAlive] off, whenever [list], [download] or [upload]
    returns without error, the returned responses end with the response
    of the [QUIT] exchange, which was the last command sent.  With
    [keepAlive] on, no run of the three, however it ends, sends [QUIT]. *)
Theorem keepAlive_governs_quit (W : World) (st : Session) :
  (params.keepAlive (params (this st)) = false ->
   (forall p res text st',
       list W p st = Return (res, text, None) st' -> ends_with_quit res (since st st'))
   /\ (forall l r res n st',
          download W l r st = Return (res, n, None) st' -> ends_with_quit res (since st st'))
   /\ (forall l r res n st',
          upload W l r st = Return (res, n, None) st' -> ends_with_quit res (since st st')))
  /\ (params.keepAlive (params (this st)) = true ->
      (forall p, ~ In "QUIT" (sent (since st (final (list W p st)))))
      /\ (forall l r, ~ In "QUIT" (sent (since st (final (download W l r st)))))
      /\ (forall l r, ~ In "QUIT" (sent (since st (final (upload W l r st)))))).
Proof.
  split; intros Hk.
  - repeat split.
    + intros p res text st'.
      destruct (list_body any_event (fun _ _ _ => I) (fun _ _ => I) W p) as (body & -> & Hb).
      now apply with_keepAlive_off.
    + intros l r res n st'.
      destruct (download_body any_event (fun _ _ _ => I) (fun _ _ => I) W l r)
        as (body & -> & Hb).
      now apply with_keepAlive_off.
    + intros l r res n st'.
      destruct (upload_body any_event (fun _ _ _ => I) (fun _ _ => I) W l r)
        as (body & -> & Hb).
      now apply with_keepAlive_off.
  - repeat split.
    + intros p.
      destruct (list_body no_quit no_quit_cmd no_quit_other W p) as (body & -> & Hb).
      now apply with_keepAlive_on.
    + intros l r.
      destruct (download_body no_quit no_quit_cmd no_quit_other W l r) as (body & -> & Hb).
      now apply with_keepAlive_on.
    + intros l r.
      destruct (upload_body no_quit no_quit_cmd no_quit_other W l r) as (body & -> & Hb).
      now apply with_keepAlive_on.
Qed.

Definition one_shot_session : Session :=
  fresh (example_params false IMPLICIT true false "" "" "" 2121).

Definition kept_session : Session :=
  fresh (example_params false IMPLICIT true true "" "" "" 2121).

Lemma keepAlive_governs_quit_witness :
  (params.keepAlive (params (this one_shot_session)) = false
   /\ exists res text st',
       list example_server "/pub" one_shot_session = Return (res, text, None) st'
       /\ ends_with_quit res (since one_shot_session st'))
  /\ (params.keepAlive (params (this kept_session)) = true
      /\ ~ In "QUIT"
           (sent (since kept_session (final (list example_server "/pub" kept_session))))).
Proof.
  split; (split; [reflexivity|]).
  - eexists _, _, _. split; [vm_compute; reflexivity|].
    eapply (proj1 (proj1 (keepAlive_governs_quit example_server one_shot_session) eq_refl)).
    vm_compute. reflexivity.
  - apply (proj1 (proj2 (keepAlive_governs_quit example_server kept_session) eq_refl)).
Defined.

(** ** The session state *)

Arguments connect : simpl never.

(** The trace holds a reply read against the expected code 220 and
    bearing that code. *)
Definition greeting_read (d : Datatypes.list event) : bool :=
  existsb
    (fun e =>
       match e with
       | EvReadResponse expect (Some (c, _)) => (expect =? 220) && code_matches 220 c
       | _ => false
       end) d.

Definition not_response (e : event) : Prop :=
  match e with EvReadResponse _ _ => False | _ => True end.

Lemma greeting_read_app (d1 d2 : Datatypes.list event) :
  greeting_read (d1 ++ d2) = greeting_read d1 || greeting_read d2.
Proof. apply existsb_app. Qed.

Lemma not_response_greeting (d : Datatypes.list event) :
  Forall not_response d -> greeting_read d = false.
Proof.
  induction 1 as [|e d He Hd IH]; [reflexivity|].
  change (e :: d) with ([e] ++ d)%list.
  rewrite greeting_read_app, IH. now destruct e.
Qed.

Section ReadsNothing.
#[local] Hint Resolve emits_refl emits_trans emits_interact : go.
#[local] Hint Extern 1 (not_response _) => exact I : go.

Lemma getTLSConfig_reads_nothing (W : World) :
  respects (emits not_response) (getTLSConfig W).
Proof. unfold getTLSConfig; prims; walk. Qed.
End ReadsNothing.

Lemma getTLSConfig_no_greeting (W : World) (st : Session) :
  greeting_read (since st (final (getTLSConfig W st))) = false.
Proof. apply not_response_greeting, emits_since, getTLSConfig_reads_nothing. Qed.

(** What [connect] guarantees of its outcome [o] from the session [st]. *)
Definition connect_post (st : Session)
           (o : outcome (option FtpResponse * option error)) : Prop :=
  ((exists r, o = Return (Some r, None) (final o))
   /\ State (this (final o)) = ONLINE
   /\ greeting_read (since st (final o)) = true)
  \/ ((forall r st', o <> Return (r, None) st')
      /\ State (this (final o)) = State (this st)
      /\ greeting_read (since st (final o)) = false).

Ltac chew Ho :=
  repeat
    (cbv beta iota in Ho; cbn [log this extend fst snd sys] in Ho;
     match type of Ho with
     | context [w_LookupIP ?W ?l ?h] => destruct (w_LookupIP W l h) eqn:?
     | context [nth_error ?l ?n] => destruct (nth_error l n) eqn:?
     | context [w_ParseDuration ?W ?s] => destruct (w_ParseDuration W s) eqn:?
     | context [params.secure ?p && is_IMPLICIT ?m] =>
         destruct (params.secure p && is_IMPLICIT m) eqn:?
     | context [getTLSConfig ?W ?s] =>
         let d := fresh "d" in
         let Hs := fresh "Hs" in
         let E := fresh "E" in
         let G := fresh "G" in
         pose proof (getTLSConfig_no_greeting W s) as G;
         destruct (getTLSConfig_run W s)
           as (d & Hs & [[_ [? E]] | [_ [(? & ? & E) | (? & E)]]]);
         rewrite E in Ho, G; cbn [final] in G; rewrite since_extended in G
     | context [w_DialTLS ?W ?l ?a ?c] => destruct (w_DialTLS W l a c) eqn:?
     | context [w_Dial ?W ?l ?a] => destruct (w_Dial W l a) eqn:?
     | context [w_ReadResponse ?W ?l] => destruct (w_ReadResponse W l) as [[? ?]|] eqn:?
     | context [code_matches ?e ?c] => destruct (code_matches e c) eqn:?
     end).

(** [connect] either reads the greeting with code 220, sets [ONLINE]
    and returns the response, or returns an error (or panics) with the
    state untouched and no greeting read. *)
Lemma connect_run (W : World) (st : Session) : connect_post st (connect W st).
Proof.
  remember (connect W st) as o eqn:Ho.
  unfold connect, get_params, net_LookupIP, index, time_ParseDuration,
    tls_DialWithDialer, net_Dial, set_tlsConn, set_rawConn, set_ctrlConn, set_State,
    set_this, ctrlConn_ReadResponse, bind, interact, ret, panic in Ho.
  chew Ho.
  all: subst o; unfold connect_post; cbn [final this State log extend].
  all: first
    [ solve [ left; split; [eexists; reflexivity|]; split; [reflexivity|];
              since_norm_goal; rewrite ?greeting_read_app;
              repeat match goal with
                     | H : greeting_read _ = _ |- _ => rewrite H
                     | H : code_matches _ _ = _ |- _ => cbn; rewrite H
                     end; cbn; rewrite ?orb_true_r; reflexivity ]
    | solve [ right; split; [intros; discriminate|]; split; [reflexivity|];
              since_norm_goal; rewrite ?greeting_read_app;
              repeat match goal with
                     | H : greeting_read _ = _ |- _ => rewrite H
                     | H : code_matches _ _ = _ |- _ => cbn; rewrite H
                     end; reflexivity ]
    | idtac ].
Qed.

(** The methods of [*Ftp] that run on a session, with their arguments. *)
Inductive method : Type :=
| Call_connect
| Call_secureUpgrade
| Call_getTLSConfig
| Call_auth
| Call_Command (cmd : string) (expect : Z)
| Call_options
| Call_getLocalIP
| Call_port
| Call_pasv
| Call_readBytes (itf : iface)
| Call_quit
| Call_list (p : string)
| Call_download (local remote : string)
| Call_upload (local remote : string)
| Call_mkdir (p : string)
| Call_rmdir (p : string)
| Call_delete (p : string)
| Call_rename (old new : string)
| Call_fileTransfer (dir : direction) (uri : string) (itf : iface).

(** The session a call leaves behind, whether it returns or panics. *)
Definition after (W : World) (m : method) (st : Session) : Session :=
  match m with
  | Call_connect => final (connect W st)
  | Call_secureUpgrade => final (secureUpgrade W st)
  | Call_getTLSConfig => final (getTLSConfig W st)
  | Call_auth => final (auth W st)
  | Call_Command cmd expect => final (Command W cmd expect st)
  | Call_options => final (options W st)
  | Call_getLocalIP => final (getLocalIP W st)
  | Call_port => final (port W st)
  | Call_pasv => final (pasv W st)
  | Call_readBytes itf => final (readBytes W itf st)
  | Call_quit => final (quit W st)
  | Call_list p => final (list W p st)
  | Call_download l r => final (download W l r st)
  | Call_upload l r => final (upload W l r st)
  | Call_mkdir p => final (mkdir W p st)
  | Call_rmdir p => final (rmdir W p st)
  | Call_delete p => final (delete W p st)
  | Call_rename o n => final (rename W o n st)
  | Call_fileTransfer dir uri itf => final (fileTransfer W dir uri itf st)
  end.

Lemma after_stays_online (W : World) (m : method) (st : Session) :
  stays_online st (after W m st).
Proof.
  destruct m; cbn [after];
    [ apply online_connect | apply online_secureUpgrade | apply online_getTLSConfig
    | apply online_auth | apply online_Command | apply online_options
    | apply online_getLocalIP | apply online_port | apply online_pasv
    | apply online_readBytes | apply online_quit | apply online_list
    | apply online_download | apply online_upload | apply online_mkdir
    | apply online_rmdir | apply online_delete | apply online_rename
    | apply online_fileTransfer ].
Qed.

(** C8.  A new session is [OFFLINE].  From an [OFFLINE] session,
    [connect] leaves the state [ONLINE] exactly when the greeting was
    read with code 220, which is exactly when it returns a response and
    no error; on every failure (resolution, dial, TLS configuration,
    greeting) the state is still [OFFLINE].  No method, however it
    ends, takes an [ONLINE] session out of [ONLINE]. *)
Theorem session_state_lifecycle (W : World) :
  (forall p, State (newFtp p) = OFFLINE)
  /\ (forall st,
         State (this st) = OFFLINE ->
         (State (this (final (connect W st))) = ONLINE
          <-> greeting_read (since st (final (connect W st))) = true)
         /\ (State (this (final (connect W st))) = ONLINE
             <-> exists r st', connect W st = Return (Some r, None) st')
         /\ (State (this (final (connect W st))) = ONLINE
             \/ State (this (final (connect W st))) = OFFLINE))
  /\ (forall m st,
         State (this st) = ONLINE -> State (this (after W m st)) = ONLINE).
Proof.
  split; [reflexivity|]. split.
  - intros st Hoff.
    destruct (connect_run W st) as [([r Hr] & Hon & Hg) | (Hne & Hst & Hg)].
    + rewrite Hon, Hg. repeat split; auto.
      intros _. eauto.
    + rewrite Hst, Hg, Hoff. repeat split; auto; try discriminate.
      intros (r & st' & E). now apply Hne in E.
  - intros m st. apply after_stays_online.
Qed.

Lemma session_state_lifecycle_witness :
  State (this one_shot_session) = OFFLINE
  /\ State (this (final (connect example_server one_shot_session))) = ONLINE
  /\ greeting_read (since one_shot_session (final (connect example_server one_shot_session)))
     = true
  /\ State (this (after example_server (Call_list "/pub")
                   (final (connect example_server one_shot_session)))) = ONLINE.
Proof.
  pose proof (session_state_lifecycle example_server) as (_ & Hc & Hk).
  destruct (Hc one_shot_session eq_refl) as (Hg & _ & _).
  assert (Hon : State (this (final (connect example_server one_shot_session))) = ONLINE)
    by (vm_compute; reflexivity).
  split; [reflexivity|]. split; [exact Hon|].
  split; [apply Hg, Hon | apply Hk, Hon].
Defined.

(** ** Listen ports beyond 16 bits *)

(** C3.  For every listen port above 65535, [getSplitPorts] returns the
    error of its default case and no octets, and [port] returns an
    error without sending a [PORT] command or opening a listener. *)
Theorem listenPort_above_16_bits_fails (W : World) (st : Session) :
  65535 < params.listenPort (params (this st)) ->
  getSplitPorts (this st) = (0, 0, Some default_error)
  /\ exists e st',
      port W st = Return (None, INil, Some e) st'
      /\ sent (since st st') = []
      /\ forall a ok, ~ In (EvListen a ok) (since st st').
Proof.
  intros Hp. pose proof (getSplitPorts_above_16_bits _ Hp) as Hg.
  split; [exact Hg|].
  unfold port, getLocalIP, net_InterfaceAddrs, get_this, bind, interact, ret.
  destruct (w_InterfaceAddrs W (log st)) as [addrs|]; cbv beta iota.
  - match goal with
    | |- context [if ?b then _ else _] => destruct b
    end; cbv beta iota; cbn [this extend]; rewrite ?Hg; cbv beta iota;
      (eexists _, _; split; [reflexivity|]; rewrite since_extended;
       split; [reflexivity|]; intros a ok [E|[]]; discriminate).
  - eexists _, _. split; [reflexivity|]. rewrite since_extended.
    split; [reflexivity|]. intros a ok [E|[]]. discriminate.
Qed.

Lemma listenPort_above_16_bits_fails_witness :
  65535 < params.listenPort (params (this (fresh (example_params false IMPLICIT false true "" "" "" 70000))))
  /\ getSplitPorts (listening 70000) = (0, 0, Some default_error).
Proof.
  split; [reflexivity|].
  apply (listenPort_above_16_bits_fails example_server
           (fresh (example_params false IMPLICIT false true "" "" "" 70000))).
  reflexivity.
Defined.

(** ** [h2i] never reports a parse failure *)

Arguments pasv : simpl never.

Lemma ds2h_error_shape (dec hex : string) (e : error) :
  ds2h dec = (hex, Some e) -> exists k, e = NumError "Atoi" k.
Proof.
  unfold ds2h. destruct (strconv.Atoi dec) as [p [e'|]] eqn:E; [|discriminate].
  intros [= _ <-]. eapply Atoi_error_shape, E.
Qed.

Lemma Command_error_shape (W : World) cmd expect st r e st' :
  Command W cmd expect st = Return (r, Some e) st' ->
  (exists op, e = SysError op) \/ (exists c m, e = ProtocolError c m).
Proof.
  unfold Command, ctrlConn_Cmd, ctrlConn_ReadResponse, bind, interact, ret.
  destruct (w_Cmd W (log st) cmd); cbn [sys]; cbv beta iota.
  - destruct (w_ReadResponse W _) as [[c m]|]; [destruct (code_matches expect c)|];
      intros [= _ <- _]; eauto.
  - intros [= _ <- _]. eauto.
Qed.

Lemma getSplitPorts_error (t : Ftp) (p1 p2 : Z) (e : error) :
  getSplitPorts t = (p1, p2, Some e) -> e = default_error.
Proof.
  unfold getSplitPorts.
  destruct (String.length _) as [|[|[|[|[|n]]]]];
    repeat match goal with
           | |- context [h2i ?x] =>
               let H := fresh in
               pose proof (h2i_never_fails x) as H;
               destruct (h2i x) as [? [?|]]; cbn [snd] in H; [discriminate H|]; clear H
           end;
    now intros [= _ _ <-].
Qed.

Lemma pasv_error_not_ParseInt (W : World) st res c e st' :
  pasv W st = Return (res, c, Some e) st' -> forall k, e <> NumError "ParseInt" k.
Proof.
  unfold pasv, get_params, net_LookupIP, net_Dial, deref, index, bind, interact, ret, panic.
  intros H k.
  destruct (Command W "PASV" 227 st) as [[r [e0|]] st1|why st1] eqn:EC;
    cbv beta iota in H.
  { injection H as _ _ <- _.
    destruct (Command_error_shape _ _ _ _ _ _ _ EC) as [[op ->] | (c0 & m0 & ->)]; discriminate. }
  2:{ discriminate. }
  repeat
    (cbv beta iota in H; cbn [log this extend fst snd] in H;
     match type of H with
     | context [w_LookupIP ?W ?l ?h] => destruct (w_LookupIP W l h) eqn:?
     | context [match r with _ => _ end] => destruct r
     | context [nth_error ?l ?n] => destruct (nth_error l n) eqn:?
     | context [ds2h ?x] =>
         let E := fresh "E" in
         destruct (ds2h x) as [? [?|]] eqn:E;
         [apply ds2h_error_shape in E; destruct E as [? ->]|]
     | context [h2i ?x] =>
         let E := fresh "E" in
         pose proof (h2i_never_fails x) as E;
         destruct (h2i x) as [? [?|]]; cbn [snd] in E; [discriminate E|]; clear E
     | context [w_Dial ?W ?l ?a] => destruct (w_Dial W l a) eqn:?
     end);
    try discriminate H; injection H as _ _ <- _; discriminate.
Qed.

(** C10.  When [hex] does not parse as a hexadecimal 64-bit integer,
    [h2i] returns 0 with a nil error.  So [h2i] never returns an error,
    the only error of [getSplitPorts] is that of its default case, and
    no error returned by [pasv] is a [ParseInt] error. *)
Theorem h2i_swallows_parse_failure :
  (forall hex, is_some (snd (strconv.ParseInt hex 16)) = true -> h2i hex = (0, None))
  /\ (forall hex, snd (h2i hex) = None)
  /\ (forall t p1 p2 e, getSplitPorts t = (p1, p2, Some e) -> e = default_error)
  /\ (forall W st res c e st',
         pasv W st = Return (res, c, Some e) st' -> forall k, e <> NumError "ParseInt" k).
Proof.
  split; [|split; [|split]].
  - intros hex H. unfold h2i.
    destruct (strconv.ParseInt hex 16) as [r [e|]]; [reflexivity | discriminate H].
  - apply h2i_never_fails.
  - apply getSplitPorts_error.
  - apply pasv_error_not_ParseInt.
Qed.

Lemma h2i_swallows_parse_failure_witness :
  is_some (snd (strconv.ParseInt "0x1F" 16)) = true /\ h2i "0x1F" = (0, None).
Proof.
  split; [reflexivity|].
  apply (proj1 h2i_swallows_parse_failure "0x1F"). reflexivity.
Defined.

(** A reply whose port octets are too long for 64 bits once
    concatenated in hexadecimal: the parse fails inside [h2i], and
    [pasv] dials port 0 without an error. *)
Example pasv_dials_port_0 :
  exists r st',
    pasv (example_world "Entering Passive Mode (10,0,0,5,4294967296,4294967296)" true)
         kept_session
    = Return (Some r, Some (Dialed "192.0.2.1:0"), None) st'.
Proof. eexists _, _. vm_compute. reflexivity. Qed.

(** ** Passive mode: the port decoded from the reply *)

(** What lines 325-336 compute from the decimal text of two octets. *)
Definition octets_ok (h l : Z) : bool :=
  match ds2h (fmt.Sprintf_d h), ds2h (fmt.Sprintf_d l) with
  | (hex1, None), (hex2, None) =>
      match h2i (hex1 ++ hex2) with
      | (port, None) => port =? (if l <? 16 then h * 16 + l else h * 256 + l)
      | _ => false
      end
  | _, _ => false
  end.

Lemma octets_ok_all :
  forallb (fun h => forallb (octets_ok h) octets) octets = true.
Proof. vm_cast_no_check (eq_refl true). Qed.

(** X17.  The two hexadecimal texts are concatenated without padding: a
    low octet below 16 contributes one digit, and the result is
    [h * 16 + l] where the protocol means [h * 256 + l]. *)
Lemma pasv_port_of_octets (h l : Z) :
  0 <= h <= 255 -> 0 <= l <= 255 ->
  exists hex1 hex2,
    ds2h (fmt.Sprintf_d h) = (hex1, None)
    /\ ds2h (fmt.Sprintf_d l) = (hex2, None)
    /\ h2i (hex1 ++ hex2) = (if l <? 16 then h * 16 + l else h * 256 + l, None).
Proof.
  intros Hh Hl.
  pose proof (proj1 (forallb_forall _ _) octets_ok_all h (octets_complete h Hh)) as H.
  pose proof (proj1 (forallb_forall _ _) H l (octets_complete l Hl)) as Hok.
  unfold octets_ok in Hok.
  destruct (ds2h (fmt.Sprintf_d h)) as [hex1 [e|]]; [discriminate|].
  destruct (ds2h (fmt.Sprintf_d l)) as [hex2 [e|]]; [discriminate|].
  exists hex1, hex2. split; [reflexivity|]. split; [reflexivity|].
  destruct (h2i (hex1 ++ hex2)) as [port [e|]]; [discriminate|].
  apply Z.eqb_eq in Hok. now subst port.
Qed.

(** C1, at the reply of the specification's scenario.  The reply
    [227 Entering Passive Mode (10,0,0,5,200,13)] matches the pattern
    with port octets 200 and 13; [pasv] dials port 3213 of the resolved
    control host, not port 200 * 256 + 13 = 51213. *)
Theorem pasv_scenario_port :
  exists r st',
    pasv example_server kept_session
    = Return (Some r, Some (Dialed "192.0.2.1:3213"), None) st'
    /\ msg r = "Entering Passive Mode (10,0,0,5,200,13)"
    /\ regexp.FindAllStringSubmatch pasv_pattern (msg r)
       = [["10,0,0,5,200,13"; "10"; "0"; "0"; "5"; "200"; "13"]]
    /\ In (EvDial "192.0.2.1:3213" true) (log st')
    /\ (forall ok, ~ In (EvDial ("192.0.2.1:" ++ fmt.Sprintf_d (200 * 256 + 13)) ok) (log st')).
Proof.
  eexists _, _. split; [vm_compute; reflexivity|].
  split; [reflexivity|]. split; [vm_compute; reflexivity|].
  split.
  - cbn. auto.
  - intros ok. vm_compute. intros [E|[E|[E|[E|[]]]]]; discriminate.
Qed.

(** C7, at a reply without the six numbers.  [FindAllStringSubmatch]
    returns no match, and [matches[0]] panics: [pasv] does not return. *)
Theorem pasv_without_match_panics :
  regexp.FindAllStringSubmatch pasv_pattern "Entering Passive Mode" = []
  /\ exists st',
      pasv (example_world "Entering Passive Mode" true) kept_session
      = Panic "index out of range" st'.
Proof. split; [vm_compute; reflexivity|]. eexists. vm_compute. reflexivity. Qed.

(** The other two failures named by C7 are returned as errors. *)
Example pasv_octet_out_of_range :
  exists r st',
    pasv (example_world "Entering Passive Mode (10,0,0,5,99999999999999999999,13)" true)
         kept_session
    = Return (Some r, None, Some (NumError "Atoi" ErrRange)) st'.
Proof. eexists _, _. vm_compute. reflexivity. Qed.

Lemma pasv_dial_failure (W : World) (st : Session) :
  (exists a, In (EvDial a false) (since st (final (pasv W st)))) ->
  exists res st', pasv W st = Return (res, None, Some (SysError "net.Dial")) st'.
Proof.
  remember (pasv W st) as o eqn:Ho.
  unfold pasv, Command, ctrlConn_Cmd, ctrlConn_ReadResponse, get_params, net_LookupIP,
    net_Dial, deref, index, bind, interact, ret, panic in Ho.
  repeat
    (cbv beta iota in Ho; cbn [log this extend fst snd sys msg] in Ho;
     match type of Ho with
     | context [w_Cmd ?W ?l ?c] => destruct (w_Cmd W l c) eqn:?
     | context [w_ReadResponse ?W ?l] => destruct (w_ReadResponse W l) as [[? ?]|] eqn:?
     | context [code_matches ?e ?c] => destruct (code_matches e c) eqn:?
     | context [w_LookupIP ?W ?l ?h] => destruct (w_LookupIP W l h) eqn:?
     | context [nth_error ?l ?n] => destruct (nth_error l n) eqn:?
     | context [ds2h ?x] => destruct (ds2h x) as [? [?|]] eqn:?
     | context [h2i ?x] => destruct (h2i x) as [? [?|]] eqn:?
     | context [w_Dial ?W ?l ?a] => destruct (w_Dial W l a) eqn:?
     end).
  all: subst o; cbn [final]; intros [a Hin]; since_norm Hin.
  all: try solve [ eexists _, _; reflexivity ].
  all: exfalso; cbn in Hin;
    repeat match goal with
           | H : _ \/ _ |- _ => destruct H
           | H : False |- _ => destruct H
           end; discriminate.
Qed.

(** ** TLS configuration assembly *)

Definition fixed_rootCA_file : string := "./cert/rcaPem.pem".

Definition reads_fixed_file (e : event) : Prop :=
  forall path ok, e = EvReadFile path ok -> path = fixed_rootCA_file.

Section FixedPath.
#[local] Hint Resolve emits_refl emits_trans emits_interact : go.
#[local] Hint Extern 1 (reads_fixed_file _) =>
  let E := fresh in intros ? ? E; now inversion E : go.

(** Whatever the parameters, the only file [getTLSConfig] reads is
    [./cert/rcaPem.pem]. *)
Lemma getTLSConfig_reads_fixed_file (W : World) :
  respects (emits reads_fixed_file) (getTLSConfig W).
Proof. unfold getTLSConfig; prims; walk. Qed.
End FixedPath.

(** The parts of C9 that hold: client material is configured only when
    both [cert] and [key] are set, and an empty [rootCA] leaves
    [RootCAs] nil. *)
Lemma getTLSConfig_material (W : World) (st : Session) conf err st' :
  getTLSConfig W st = Return (conf, err) st' ->
  ((Certificates conf <> [] \/ ClientCAs conf <> None \/ RootCAs conf <> None) ->
   (params.cert (params (this st)) =? "")%string = false
   /\ (params.key (params (this st)) =? "")%string = false)
  /\ ((params.rootCA (params (this st)) =? "")%string = true -> RootCAs conf = None).
Proof.
  unfold getTLSConfig, tls_LoadX509KeyPair, ioutil_ReadFile, AppendCertsFromPEM,
    get_params, bind, interact, ret, panic.
  intros H.
  repeat
    (cbv beta iota in H; cbn [log this extend fst snd sys negb andb] in H;
     match type of H with
     | context [(params.cert ?p =? "")%string] =>
         destruct (params.cert p =? "")%string eqn:?
     | context [(params.key ?p =? "")%string] =>
         destruct (params.key p =? "")%string eqn:?
     | context [(params.rootCA ?p =? "")%string] =>
         destruct (params.rootCA p =? "")%string eqn:?
     | context [if params.alwaysTrust ?p then _ else _] =>
         destruct (params.alwaysTrust p) eqn:?
     | context [w_LoadX509KeyPair ?W ?l ?c ?k] => destruct (w_LoadX509KeyPair W l c k) eqn:?
     | context [w_ReadFile ?W ?l ?f] => destruct (w_ReadFile W l f) eqn:?
     | context [w_AppendCertsFromPEM ?W ?l ?f] =>
         destruct (w_AppendCertsFromPEM W l f) eqn:?
     end).
  all: try discriminate H.
  all: injection H as <- _ _; cbn;
    (split; [intros [Hn|[Hn|Hn]]; first [now contradiction Hn | now split] | ]);
    first [reflexivity | discriminate].
Qed.

Definition rooted_session : Session :=
  fresh (example_params true IMPLICIT true true "client.pem" "client.key"
           "/etc/ssl/rootCA.pem" 2121).

(** C9, at a session whose [rootCA] parameter is [/etc/ssl/rootCA.pem].
    [getTLSConfig] returns a configuration with a trust pool, and the
    one file it read for it is [./cert/rcaPem.pem]; the configured
    path is never opened. *)
Theorem getTLSConfig_ignores_rootCA_path :
  params.rootCA (params (this rooted_session)) = "/etc/ssl/rootCA.pem"
  /\ exists conf st',
      getTLSConfig example_server rooted_session = Return (conf, None) st'
      /\ RootCAs conf <> None
      /\ In (EvReadFile "./cert/rcaPem.pem" true) (log st')
      /\ forall ok, ~ In (EvReadFile "/etc/ssl/rootCA.pem" ok) (log st').
Proof.
  split; [reflexivity|].
  eexists _, _. split; [vm_compute; reflexivity|].
  split; [discriminate|]. split; [cbn; auto|].
  intros ok. cbn. intros [E|[E|[]]]; discriminate.
Qed.

(** * Further properties of the code *)

(** ** [%x] and [h2i] are inverse on every [int] *)

Lemma digit_val_hex_digit (d : Z) :
  0 <= d < 16 -> strconv.digit_val (fmt.hex_digit d) = Some d.
Proof.
  intros Hd.
  assert (H : In d (map Z.of_nat (seq 0 16))).
  { rewrite <- (Z2Nat.id d) by lia. apply in_map, in_seq. lia. }
  cbn in H.
  repeat (destruct H as [<-|H]; [reflexivity|]). destruct H.
Qed.

Lemma hex_digit_not_sign (d : Z) :
  0 <= d < 16 ->
  Ascii.eqb (fmt.hex_digit d) "+" = false /\ Ascii.eqb (fmt.hex_digit d) "-" = false.
Proof.
  intros Hd.
  assert (H : In d (map Z.of_nat (seq 0 16))).
  { rewrite <- (Z2Nat.id d) by lia. apply in_map, in_seq. lia. }
  cbn in H.
  repeat (destruct H as [<-|H]; [split; reflexivity|]). destruct H.
Qed.

(** Parsing what the formatting loop wrote in front of [buf] leaves the
    accumulator at the formatted value. *)
Lemma parse_fmt_hex_loop (fuel : nat) :
  forall u buf,
    0 <= u < 16 ^ Z.of_nat fuel -> u <= strconv.maxUint64 ->
    strconv.parse_uint_loop 16 (strconv.maxUint64 / 16 + 1) (fmt.fmt_hex_loop fuel u buf) 0
    = strconv.parse_uint_loop 16 (strconv.maxUint64 / 16 + 1) buf u.
Proof.
  assert (Hcut : strconv.maxUint64 / 16 + 1 = 1152921504606846976) by reflexivity.
  assert (Hmax : strconv.maxUint64 = 18446744073709551615) by reflexivity.
  induction fuel as [|fuel IH]; intros u buf Hu Hm.
  - change (16 ^ Z.of_nat 0) with 1 in Hu. assert (u = 0) by lia. now subst u.
  - cbn [fmt.fmt_hex_loop].
    destruct (Z.leb_spec 16 u) as [Hge|Hlt].
    + rewrite Z.shiftr_div_pow2 by lia. change (2 ^ 4) with 16.
      change 15 with (Z.ones 4). rewrite Z.land_ones by lia. change (2 ^ 4) with 16.
      assert (Hq : 0 <= u / 16 < 16 ^ Z.of_nat fuel).
      { split; [apply Z.div_pos; lia|].
        apply Z.div_lt_upper_bound; [lia|].
        rewrite Nat2Z.inj_succ, Z.pow_succ_r in Hu by lia. lia. }
      assert (Hq' : u / 16 < 1152921504606846976)
        by (apply Z.div_lt_upper_bound; lia).
      rewrite IH by lia.
      cbn [strconv.parse_uint_loop].
      pose proof (Z.mod_pos_bound u 16 ltac:(lia)) as Hr.
      rewrite digit_val_hex_digit by lia.
      destruct (Z.leb_spec 16 (u mod 16)); [lia|].
      rewrite Hcut. destruct (Z.leb_spec 1152921504606846976 (u / 16)); [lia|].
      cbv zeta.
      replace (u / 16 * 16 + u mod 16) with u by (rewrite (Z.div_mod u 16) at 1; lia).
      destruct (Z.ltb_spec strconv.maxUint64 u); [lia|]. reflexivity.
    + cbn [strconv.parse_uint_loop].
      rewrite digit_val_hex_digit by lia.
      destruct (Z.leb_spec 16 u); [lia|].
      rewrite Hcut. cbn [Z.leb Z.compare].
      cbv zeta. replace (0 * 16 + u) with u by lia.
      destruct (Z.ltb_spec strconv.maxUint64 u); [lia|]. reflexivity.
Qed.

(** The formatting loop writes at least one digit, and its first
    character is a digit. *)
Lemma fmt_hex_loop_head (fuel : nat) :
  forall u buf,
    0 <= u ->
    exists d rest, 0 <= d < 16 /\ fmt.fmt_hex_loop (S fuel) u buf = fmt.hex_digit d :: rest.
Proof.
  induction fuel as [|fuel IH]; intros u buf Hu.
  - cbn [fmt.fmt_hex_loop]. destruct (Z.leb_spec 16 u).
    + exists (Z.land u 15), buf. split; [|reflexivity].
      change 15 with (Z.ones 4). rewrite Z.land_ones by lia.
      apply Z.mod_pos_bound. lia.
    + exists u, buf. split; [lia | reflexivity].
  - remember (S fuel) as f. cbn [fmt.fmt_hex_loop]. destruct (Z.leb_spec 16 u).
    + subst f. apply IH. apply Z.shiftr_nonneg. lia.
    + exists u, buf. split; [lia | reflexivity].
Qed.

Lemma ParseInt_hex_magnitude (u : Z) :
  0 <= u <= 9223372036854775808 ->
  strconv.ParseUint (fmt.fmt_hex_loop 16 u []) 16 = (u, None)
  /\ exists d rest,
      0 <= d < 16 /\ fmt.fmt_hex_loop 16 u [] = fmt.hex_digit d :: rest.
Proof.
  intros Hu.
  destruct (fmt_hex_loop_head 15 u [] ltac:(lia)) as (d & rest & Hd & E).
  split; [|eauto].
  unfold strconv.ParseUint.
  destruct (fmt.fmt_hex_loop 16 u []) as [|c cs] eqn:F; [discriminate E|].
  rewrite <- F, parse_fmt_hex_loop.
  - reflexivity.
  - change (16 ^ Z.of_nat 16) with 18446744073709551616. lia.
  - change strconv.maxUint64 with 18446744073709551615. lia.
Qed.

(** X1.  For every 64-bit [int] [n], parsing with [h2i] what
    [fmt.Sprintf("%x", n)] printed gives [n] back, with a nil error. *)
Theorem h2i_Sprintf_x (n : Z) :
  - 9223372036854775808 <= n <= 9223372036854775807 ->
  h2i (fmt.Sprintf_x n) = (n, None).
Proof.
  intros Hn. unfold h2i, strconv.ParseInt, fmt.Sprintf_x.
  destruct (ParseInt_hex_magnitude (Z.abs n) ltac:(lia)) as (Hp & d & rest & Hd & E).
  destruct (hex_digit_not_sign d Hd) as (Hplus & Hminus).
  destruct (Z.ltb_spec n 0) as [Hneg|Hpos].
  - cbn [append list_ascii_of_string].
    rewrite list_ascii_of_string_of_list_ascii.
    change ("-" =? "+")%char with false. change ("-" =? "-")%char with true.
    cbn [orb negb andb]. rewrite Hp.
    destruct (Z.ltb_spec 9223372036854775808 (Z.abs n)); [lia|].
    f_equal. lia.
  - rewrite list_ascii_of_string_of_list_ascii.
    rewrite E. rewrite Hplus, Hminus. cbn [orb]. rewrite <- E, Hp. cbn [negb andb].
    destruct (Z.leb_spec 9223372036854775808 (Z.abs n)); [lia|].
    f_equal. lia.
Qed.

Lemma h2i_Sprintf_x_witness :
  - 9223372036854775808 <= -2121 <= 9223372036854775807
  /\ h2i (fmt.Sprintf_x (-2121)) = (-2121, None).
Proof. split; [lia | apply h2i_Sprintf_x; lia]. Defined.

(** ** When [getSplitPorts] fails *)

Lemma Sprintf_x_long_negative (p : Z) :
  p < -4095 -> (5 <= String.length (fmt.Sprintf_x p))%nat.
Proof.
  intros Hp. unfold fmt.Sprintf_x.
  destruct (Z.ltb_spec p 0); [|lia].
  cbn [append String.length].
  rewrite length_string_of_list_ascii.
  assert (Ha : 4096 <= Z.abs p) by lia.
  assert (H1 : 256 <= Z.abs p / 16) by (apply Z.div_le_lower_bound; lia).
  assert (H2 : 16 <= Z.abs p / 16 / 16) by (apply Z.div_le_lower_bound; lia).
  change 16%nat with (S (S (S (S 12)))).
  rewrite 3 fmt_hex_loop_step by lia.
  match goal with
  | |- (_ <= S (List.length (fmt.fmt_hex_loop (S ?f) ?u ?b)))%nat =>
      pose proof (fmt_hex_loop_writes f u b) as G
  end.
  cbn [List.length] in G. lia.
Qed.

Definition small_negatives : Datatypes.list Z := map (fun n => - Z.of_nat n) (seq 1 4095).

Lemma small_negatives_complete (p : Z) : -4095 <= p < 0 -> In p small_negatives.
Proof.
  intros Hp. unfold small_negatives.
  replace p with (- Z.of_nat (Z.to_nat (- p))) by lia.
  apply (in_map (fun n => - Z.of_nat n)), in_seq.
  change (1 + 4095)%nat with (Z.to_nat 4096). lia.
Qed.

Lemma small_negatives_accepted :
  forallb (fun p => negb (is_some (snd (getSplitPorts (listening p))))) small_negatives = true.
Proof. vm_cast_no_check (eq_refl true). Qed.

(** X2.  [getSplitPorts] returns an error exactly when the listen port
    is above 65535 or below -4095: a negative port down to -4095 is
    split without complaint. *)
Theorem getSplitPorts_fails_iff (t : Ftp) :
  is_some (snd (getSplitPorts t)) = true
  <-> params.listenPort (params t) < -4095 \/ 65535 < params.listenPort (params t).
Proof.
  set (p := params.listenPort (params t)).
  split.
  - intros Herr.
    destruct (Z.ltb_spec p (-4095)) as [|Hlo]; [now left|].
    destruct (Z.ltb_spec 65535 p) as [|Hhi]; [now right|].
    exfalso. rewrite getSplitPorts_listenPort in Herr. fold p in Herr.
    destruct (Z.ltb_spec p 0) as [Hneg|Hpos].
    + pose proof (proj1 (forallb_forall _ _) small_negatives_accepted p
                    (small_negatives_complete p ltac:(lia))) as H.
      cbv beta in H. rewrite Herr in H. discriminate H.
    + pose proof (proj1 (forallb_forall _ _) split_ok_all p
                    (ports_16_bit_complete p ltac:(lia))) as H.
      unfold split_ok in H.
      destruct (getSplitPorts (listening p)) as [[p1 p2] [e|]]; discriminate.
  - intros [Hlo|Hhi].
    + unfold getSplitPorts. fold p.
      pose proof (Sprintf_x_long_negative p Hlo) as Hlen.
      destruct (String.length (fmt.Sprintf_x p)) as [|[|[|[|[|n]]]]]; try lia.
      reflexivity.
    + now rewrite getSplitPorts_above_16_bits.
Qed.

(** ** [getLocalIP] *)

(** The address an interface contributes: the dotted form of a
    non-loopback [*net.IPNet] that has a 4-byte form. *)
Definition usable (a : Addr) : Datatypes.list string :=
  match a with
  | IPNet false (Some v4) => [v4]
  | _ => []
  end.

Lemma last_cons_default {A} (x d : A) (l : Datatypes.list A) : last (x :: l) d = last l x.
Proof.
  revert x d. induction l as [|y l IH]; intros x d; [reflexivity|].
  change (last (x :: y :: l) d) with (last (y :: l) d).
  now rewrite (IH y d), (IH y x).
Qed.

Lemma getLocalIP_loop (addrs : Datatypes.list Addr) (ip : string) :
  fold_left
    (fun ip addr => match addr with IPNet false (Some v4) => v4 | _ => ip end) addrs ip
  = last (flat_map usable addrs) ip.
Proof.
  revert ip. induction addrs as [|a addrs IH]; intros ip; [reflexivity|].
  cbn [fold_left flat_map]. rewrite IH.
  destruct a as [[|] [v4|]|]; cbn [usable app]; try reflexivity.
  now rewrite last_cons_default.
Qed.

(** X3.  When the interface addresses are available, [getLocalIP]
    returns the last usable IPv4 address of the list (each later one
    overwrites the earlier), and the error [Could not get the Local
    Address.] exactly when there is none. *)
Theorem getLocalIP_takes_last (W : World) (st : Session) (addrs : Datatypes.list Addr) :
  w_InterfaceAddrs W (log st) = Some addrs ->
  let ip := last (flat_map usable addrs) "" in
  getLocalIP W st
  = Return (ip, if (ip =? "")%string
                then Some (ErrorsNew "Could not get the Local Address.") else None)
      (extend st [EvInterfaceAddrs true]).
Proof.
  intros Ha ip. unfold getLocalIP, net_InterfaceAddrs, bind, interact, ret.
  rewrite Ha. cbv beta iota. cbn [is_some].
  rewrite getLocalIP_loop. fold ip.
  now destruct (ip =? "")%string.
Qed.

Lemma getLocalIP_takes_last_witness :
  w_InterfaceAddrs example_server (log one_shot_session)
  = Some [IPNet true (Some "127.0.0.1"); OtherAddr; IPNet false (Some "198.51.100.7")]
  /\ getLocalIP example_server one_shot_session
     = Return ("198.51.100.7", None) (extend one_shot_session [EvInterfaceAddrs true]).
Proof.
  split; [reflexivity|].
  apply (getLocalIP_takes_last example_server one_shot_session
           [IPNet true (Some "127.0.0.1"); OtherAddr; IPNet false (Some "198.51.100.7")]).
  reflexivity.
Defined.

(** ** [port] *)

Arguments getLocalIP : simpl never.

Lemma getSplitPorts_octets (t : Ftp) :
  0 <= params.listenPort (params t) <= 65535 ->
  getSplitPorts t
  = (params.listenPort (params t) / 256, params.listenPort (params t) mod 256, None).
Proof.
  intros Hp. rewrite getSplitPorts_listenPort.
  set (p := params.listenPort (params t)) in *.
  pose proof (proj1 (forallb_forall split_ok ports_16_bit) split_ok_all p
                (ports_16_bit_complete p Hp)) as Hok.
  unfold split_ok in Hok.
  destruct (getSplitPorts (listening p)) as [[p1 p2] [e|]]; [discriminate|].
  repeat (apply andb_prop in Hok; destruct Hok as [Hok ?]).
  assert (p1 = p / 256 /\ p2 = p mod 256) as [-> ->]; [|reflexivity].
  pose proof (Z.div_mod p 256 ltac:(lia)). pose proof (Z.mod_pos_bound p 256 ltac:(lia)).
  assert (p1 = p / 256) by nia. lia.
Qed.

(** The command [port] builds for a local address and a listen port. *)
Definition PORT_command (ip : string) (p : Z) : string :=
  "PORT " ++ strings_Replace ip "." "," ++ ","
          ++ fmt.Sprintf_d (p / 256) ++ "," ++ fmt.Sprintf_d (p mod 256).


Definition active_session : Session :=
  fresh (example_params false IMPLICIT false true "" "" "" 2121).


(** ** [pasv]: where the data channel is dialed *)

(** Takes a run of [pasv] apart along the calls it makes. *)
Ltac chew_pasv Ho :=
  unfold pasv, Command, ctrlConn_Cmd, ctrlConn_ReadResponse, get_params, net_LookupIP,
    net_Dial, deref, index, bind, interact, ret, panic in Ho;
  repeat
    (cbv beta iota in Ho; cbn [log this extend fst snd sys msg] in Ho;
     match type of Ho with
     | context [w_Cmd ?W ?l ?c] => destruct (w_Cmd W l c) eqn:?
     | context [w_ReadResponse ?W ?l] => destruct (w_ReadResponse W l) as [[? ?]|] eqn:?
     | context [code_matches ?e ?c] => destruct (code_matches e c) eqn:?
     | context [w_LookupIP ?W ?l ?h] => destruct (w_LookupIP W l h) eqn:?
     | context [nth_error ?l ?n] => destruct (nth_error l n) eqn:?
     | context [ds2h ?x] => destruct (ds2h x) as [? [?|]] eqn:?
     | context [h2i ?x] => destruct (h2i x) as [? [?|]] eqn:?
     | context [w_Dial ?W ?l ?a] => destruct (w_Dial W l a) eqn:?
     end).

(** X5.  Whenever [pasv] returns a data connection, that connection was
    dialed to the first address [net.LookupIP] gave for the control
    host, on the port decoded from groups 5 and 6 of the first match of
    the reply; the four address groups of the reply play no part. *)
Theorem pasv_dials_control_host (W : World) (st st' : Session) res c err :
  pasv W st = Return (res, Some c, err) st' ->
  exists r tmp others t5 t6 hex1 hex2 ip0 ips,
    res = Some r /\ code r = 227 /\ err = None
    /\ regexp.FindAllStringSubmatch pasv_pattern (msg r) = tmp :: others
    /\ nth_error tmp 5 = Some t5 /\ nth_error tmp 6 = Some t6
    /\ ds2h t5 = (hex1, None) /\ ds2h t6 = (hex2, None)
    /\ In (EvLookupIP (params.host (params (this st))) (Some (ip0 :: ips))) (since st st')
    /\ c = Dialed (ip0 ++ ":" ++ fmt.Sprintf_d (fst (h2i (hex1 ++ hex2)))).
Proof.
  intros H. chew_pasv H.
  all: try discriminate H.
  all: injection H as <- <- <- <-.
  match goal with
  | Hc : code_matches 227 ?z = true |- _ => apply code_matches_exact in Hc; [subst z | lia]
  end.
  match goal with
  | Hm : nth_error (regexp.FindAllStringSubmatch _ _) 0 = Some ?t |- _ =>
      destruct (regexp.FindAllStringSubmatch pasv_pattern s) as [|tmp others] eqn:Em;
      [discriminate Hm | injection Hm as ->]
  end.
  match goal with
  | Hi : nth_error ?l 0 = Some ?x |- _ =>
      destruct l as [|ip0 ips]; [discriminate Hi | injection Hi as ->]
  end.
  eexists _, _, _, _, _, _, _, _, _.
  repeat split; try eassumption; try reflexivity.
  - since_norm_goal. cbn. auto.
  - match goal with E : h2i _ = _ |- _ => now rewrite E end.
Qed.

Lemma pasv_dials_control_host_witness :
  exists r st',
    pasv example_server kept_session
    = Return (Some r, Some (Dialed "192.0.2.1:3213"), None) st'
    /\ In (EvLookupIP "ftp.example.org" (Some ["192.0.2.1"])) (since kept_session st').
Proof.
  assert (E : exists r st', pasv example_server kept_session
                            = Return (Some r, Some (Dialed "192.0.2.1:3213"), None) st')
    by (eexists _, _; vm_compute; reflexivity).
  destruct E as (r & st' & E).
  destruct (pasv_dials_control_host _ _ _ _ _ _ E)
    as (r' & tmp & others & t5 & t6 & hex1 & hex2 & ip0 & ips & _ & _ & _ & _ & _ & _ & _ & _ & Hin & _).
  exists r, st'. split; [exact E|].
  revert Hin. vm_compute in E. injection E as <- <-. vm_compute.
  intros [H|[H|[H|[H|[]]]]]; try discriminate H. auto.
Defined.

Lemma pasv_port_of_octets_witness :
  (0 <= 200 <= 255 /\ 0 <= 13 <= 255)
  /\ exists hex1 hex2,
      ds2h (fmt.Sprintf_d 200) = (hex1, None)
      /\ ds2h (fmt.Sprintf_d 13) = (hex2, None)
      /\ h2i (hex1 ++ hex2) = (3213, None).
Proof.
  split; [lia|]. apply (pasv_port_of_octets 200 13); lia.
Defined.

(** ** The matcher: every match carries all its groups *)

Fixpoint groups (r : regexp.re) : nat :=
  match r with
  | regexp.Group r1 => S (groups r1)
  | regexp.Cat r1 r2 => (groups r1 + groups r2)%nat
  | _ => O
  end.

Lemma lazy_plus_some {R} (s : Datatypes.list ascii) (k : Datatypes.list ascii -> option R) x :
  regexp.lazy_plus s k = Some x -> exists s', k s' = Some x.
Proof.
  induction s as [|c s IH]; cbn [regexp.lazy_plus]; [discriminate|].
  destruct (regexp.is_digit c); [|discriminate].
  destruct (k s) eqn:E; [intros [= <-]; eauto | exact IH].
Qed.

Lemma greedy_plus_some {R} (s : Datatypes.list ascii) (k : Datatypes.list ascii -> option R) x :
  regexp.greedy_plus s k = Some x -> exists s', k s' = Some x.
Proof.
  induction s as [|c s IH]; cbn [regexp.greedy_plus]; [discriminate|].
  destruct (regexp.is_digit c); [|discriminate].
  destruct (regexp.greedy_plus s k) eqn:E; [intros [= <-]; auto | eauto].
Qed.

Lemma run_captures {R} (r : regexp.re) :
  forall s caps (k : Datatypes.list ascii -> Datatypes.list string -> option R) x,
    regexp.run r s caps k = Some x ->
    exists s' caps',
      k s' caps' = Some x /\ List.length caps' = (List.length caps + groups r)%nat.
Proof.
  induction r as [c| | |r1 IH1|r1 IH1 r2 IH2]; intros s caps k x; cbn [regexp.run groups].
  - destruct s as [|c' s]; [discriminate|].
    destruct (Ascii.eqb c c'); [|discriminate].
    intros H. exists s, caps. split; [exact H | lia].
  - intros H. apply lazy_plus_some in H as [s' H]. exists s', caps. split; [exact H | lia].
  - intros H. apply greedy_plus_some in H as [s' H]. exists s', caps. split; [exact H | lia].
  - intros H. apply IH1 in H as (s' & caps' & H & Hl).
    eexists _, _. split; [exact H|]. rewrite length_app. cbn [List.length]. lia.
  - intros H. apply IH1 in H as (s1 & caps1 & H & Hl1).
    apply IH2 in H as (s2 & caps2 & H & Hl2).
    exists s2, caps2. split; [exact H | lia].
Qed.

Lemma find_captures (r : regexp.re) (s : Datatypes.list ascii) m rest :
  regexp.find r s = Some (m, rest) -> List.length m = S (groups r).
Proof.
  induction s as [|c s IH]; cbn [regexp.find];
    (destruct (regexp.match_here r _) as [[m' rest']|] eqn:E;
     [ intros [= <- <-]; unfold regexp.match_here in E;
       apply run_captures in E as (s' & caps' & [= <- <-] & Hl);
       cbn [List.length] in *; lia | ]).
  - discriminate.
  - exact IH.
Qed.

Lemma find_all_captures (r : regexp.re) (fuel : nat) :
  forall s, Forall (fun m => List.length m = S (groups r)) (regexp.find_all fuel r s).
Proof.
  induction fuel as [|fuel IH]; intros s; cbn [regexp.find_all]; [constructor|].
  destruct (regexp.find r s) as [[m rest]|] eqn:E; [|constructor].
  constructor; [eapply find_captures, E | apply IH].
Qed.

Lemma pasv_match_six (s : string) (m : Datatypes.list string) :
  In m (regexp.FindAllStringSubmatch pasv_pattern s) ->
  List.length m = 7%nat
  /\ exists t5 t6, nth_error m 5 = Some t5 /\ nth_error m 6 = Some t6.
Proof.
  intros Hin. unfold regexp.FindAllStringSubmatch in Hin.
  pose proof (find_all_captures pasv_pattern (List.length (list_ascii_of_string s))
                (list_ascii_of_string s)) as H.
  rewrite Forall_forall in H. apply H in Hin. change (S (groups pasv_pattern)) with 7%nat in Hin.
  split; [exact Hin|].
  do 7 (destruct m as [|? m]; [discriminate Hin|]).
  eexists _, _. split; reflexivity.
Qed.

(** X6.  Every match [FindAllStringSubmatch] returns for the pattern of
    [pasv] holds seven strings, the whole match and the six groups: the
    indices 5 and 6 that [pasv] reads are always in range. *)
Theorem pasv_match_has_six_groups (s : string) (m : Datatypes.list string) :
  In m (regexp.FindAllStringSubmatch pasv_pattern s) ->
  List.length m = 7%nat
  /\ exists t5 t6, nth_error m 5 = Some t5 /\ nth_error m 6 = Some t6.
Proof. apply pasv_match_six. Qed.

Lemma pasv_match_has_six_groups_witness :
  In ["10,0,0,5,200,13"; "10"; "0"; "0"; "5"; "200"; "13"]
     (regexp.FindAllStringSubmatch pasv_pattern "Entering Passive Mode (10,0,0,5,200,13)")
  /\ List.length ["10,0,0,5,200,13"; "10"; "0"; "0"; "5"; "200"; "13"] = 7%nat.
Proof.
  assert (Hin : In ["10,0,0,5,200,13"; "10"; "0"; "0"; "5"; "200"; "13"]
                  (regexp.FindAllStringSubmatch pasv_pattern
                     "Entering Passive Mode (10,0,0,5,200,13)"))
    by (vm_compute; auto).
  split; [exact Hin|].
  apply (pasv_match_has_six_groups _ _ Hin).
Defined.

(** X7.  [pasv] panics only where it indexes a slice it has not
    checked: the match list of a reply without a match, or an empty
    address list from a lookup that reported no error. *)
Theorem pasv_panics_only_on_empty_slices (W : World) (st st' : Session) why :
  pasv W st = Panic why st' ->
  why = "index out of range"
  /\ ((exists m, In (EvReadResponse 227 (Some (227, m))) (since st st')
                 /\ regexp.FindAllStringSubmatch pasv_pattern m = [])
      \/ In (EvLookupIP (params.host (params (this st))) (Some [])) (since st st')).
Proof.
  intros H. chew_pasv H.
  all: try discriminate H.
  all: injection H as <- <-; (split; [reflexivity|]).
  all: repeat match goal with
       | Hc : code_matches 227 ?z = true |- _ =>
           apply code_matches_exact in Hc; [subst z | lia]
       end.
  all: first
    [ (* matches[0] *)
      solve [ left; eexists; split;
              [ since_norm_goal; cbn; auto
              | match goal with
                | Hm : nth_error (regexp.FindAllStringSubmatch ?p ?s) 0 = None |- _ =>
                    destruct (regexp.FindAllStringSubmatch p s);
                    [reflexivity | discriminate Hm]
                end ] ]
    | (* tmp[5] and tmp[6] are in range *)
      solve [ exfalso;
              match goal with
              | Hm : nth_error (regexp.FindAllStringSubmatch _ _) 0 = Some _ |- _ =>
                  apply nth_error_In in Hm; apply pasv_match_six in Hm;
                  destruct Hm as (_ & t5 & t6 & E5 & E6); congruence
              end ]
    | (* ip[0] *)
      solve [ right;
              match goal with
              | Hi : nth_error ?l 0 = None |- _ => destruct l; [|discriminate Hi]
              end;
              since_norm_goal; cbn; auto ] ].
Qed.

Lemma pasv_panics_only_on_empty_slices_witness :
  exists st',
    pasv (example_world "Entering Passive Mode" true) kept_session
    = Panic "index out of range" st'
    /\ exists m, In (EvReadResponse 227 (Some (227, m))) (since kept_session st')
                 /\ regexp.FindAllStringSubmatch pasv_pattern m = [].
Proof.
  assert (E : exists st', pasv (example_world "Entering Passive Mode" true) kept_session
                          = Panic "index out of range" st')
    by (eexists; vm_compute; reflexivity).
  destruct E as (st' & E). exists st'. split; [exact E|].
  destruct (pasv_panics_only_on_empty_slices _ _ _ _ E) as (_ & [Hm | Hl]); [exact Hm|].
  exfalso. revert Hl. vm_compute in E. injection E as <-. vm_compute.
  intros [H|[H|[H|[]]]]; discriminate H.
Defined.

(** ** Command sequences stop at the first failure *)

(** A run sent the first [k] commands of [expected] and returned the
    responses of the first [n]; the two differ by the one command that
    failed, if any. *)
Definition stopped_at (expected : Datatypes.list string)
           (res : Datatypes.list (option FtpResponse)) (err : option error)
           (d : Datatypes.list event) : Prop :=
  exists n k,
    commands_of res = map Some (firstn n expected)
    /\ sent d = firstn k expected
    /\ (n <= k <= S n)%nat
    /\ (err = None -> n = List.length expected /\ k = n)
    /\ (err <> None -> (n < List.length expected)%nat).

Lemma sent_cons (e : event) (d : Datatypes.list event) :
  sent (e :: d) = (match e with EvCmd c _ => [c] | _ => [] end ++ sent d)%list.
Proof. reflexivity. Qed.

Ltac stop_here n k :=
  exists n, k;
  repeat first [rewrite sent_app | rewrite sent_cons];
  repeat match goal with Hs : sent _ = _ |- _ => rewrite Hs; clear Hs end;
  change (sent []) with (@nil string);
  cbn [app commands_of map option_map command firstn List.length];
  repeat split; try reflexivity; try lia; try congruence; try (intros; discriminate).

(** One more [Command] of a sequence, either outcome kept. *)
Ltac exchange_any :=
  match goal with
  | |- context [Command ?W ?cmd ?expect ?st] =>
      let c := fresh "c" in
      let m := fresh "m" in
      let Hc := fresh "Hc" in
      let e := fresh "e" in
      let d := fresh "d" in
      let Hd := fresh "Hd" in
      let Hs := fresh "Hs" in
      let E := fresh "E" in
      destruct (Command_run W cmd expect st)
        as [(c & m & Hc & E) | (e & d & Hd & Hs & E)];
      rewrite E; clear E; cbv beta iota; rewrite ?extend_extend
  end.

Ltac close_sequence :=
  eexists _, _, _; (split; [reflexivity|]); rewrite since_extended; unfold stopped_at.

Definition options_commands (p : ftpParameters) : Datatypes.list string :=
  (["SYST"; "FEAT"; "OPTS UTF8 ON"]
     ++ (if params.secure p then ["PROT P"] else []) ++ ["TYPE I"])%list.

(** X8.  [options] and [rename] never panic and stop at the first
    command that fails: what was sent is a prefix of the sequence, the
    responses returned are those of the commands before the failing
    one, and the error is nil exactly when the whole sequence went
    through. *)
Theorem sequences_stop_at_first_failure (W : World) (st : Session) :
  (exists res err st',
      options W st = Return (res, err) st'
      /\ stopped_at (options_commands (params (this st))) res err (since st st'))
  /\ (forall old new,
         exists res err st',
           rename W old new st = Return (res, err) st'
           /\ stopped_at ["RNFR " ++ old; "RNTO " ++ new] res err (since st st')).
Proof.
  split.
  - unfold options, options_commands, get_params, bind, ret.
    exchange_any; [|close_sequence; stop_here 0%nat 1%nat].
    exchange_any; [|close_sequence; stop_here 1%nat 2%nat].
    exchange_any; [|close_sequence; stop_here 2%nat 3%nat].
    cbn [this extend].
    destruct (params.secure (params (this st))).
    + exchange_any; [|close_sequence; stop_here 3%nat 4%nat].
      exchange_any; [|close_sequence; stop_here 4%nat 5%nat].
      close_sequence. stop_here 5%nat 5%nat.
    + exchange_any; [|close_sequence; stop_here 3%nat 4%nat].
      close_sequence. stop_here 4%nat 4%nat.
  - intros old new. unfold rename, bind, ret.
    exchange_any; [|close_sequence; stop_here 0%nat 1%nat].
    exchange_any; [|close_sequence; stop_here 1%nat 2%nat].
    close_sequence. stop_here 2%nat 2%nat.
Qed.

(** ** [auth]: credentials and the TLS upgrade *)

(** The receiver after [secureUpgrade] succeeded with [conf]. *)
Definition upgraded (t : Ftp) (conf : Config) : Ftp :=
  {| rawConn := rawConn t;
     tlsConn := Some (TLSClient (rawConn t) conf);
     ctrlConn := Some (OverTLS (Some (TLSClient (rawConn t) conf)));
     params := params t;
     State := State t |}.

Lemma secureUpgrade_cases (W : World) (st : Session) :
  exists d,
    sent d = []
    /\ ((exists conf,
            steps_succeed d = true
            /\ secureUpgrade W st
               = Return None {| this := upgraded (this st) conf;
                                log := (log st ++ d ++ [EvTLSClient conf])%list |})
        \/ (steps_succeed d = false
            /\ ((exists e, secureUpgrade W st = Return (Some e) (extend st d))
                \/ exists why, secureUpgrade W st = Panic why (extend st d)))).
Proof.
  unfold secureUpgrade, bind.
  destruct (getTLSConfig_run W st)
    as (d & Hs & [[Hok [conf E]] | [Hbad [(conf & e & E) | (why & E)]]]); rewrite E;
    exists d; (split; [exact Hs|]).
  - left. exists conf. split; [exact Hok|].
    unfold tls_Client, set_tlsConn, set_ctrlConn, set_this, get_this, emit, bind, ret,
      extend, upgraded.
    cbn [log this rawConn tlsConn ctrlConn params State]. now rewrite <- app_assoc.
  - right. split; [exact Hbad|]. left. now exists e.
  - right. split; [exact Hbad|]. right. now exists why.
Qed.

(** X9.  In explicit mode [auth] sends [USER] only after the [AUTH TLS]
    exchange succeeded and the TLS client was set up over the raw
    connection: the trace up to the upgrade holds the one command
    [AUTH TLS] and no failed step, and the control connection of the
    session is the TLS one from then on. *)
Theorem auth_credentials_after_upgrade (W : World) (st : Session) :
  wants_AUTH (params (this st)) = true ->
  In ("USER " ++ params.user (params (this st))) (sent (since st (final (auth W st)))) ->
  exists conf d1 d2,
    since st (final (auth W st)) = (d1 ++ EvTLSClient conf :: d2)%list
    /\ sent d1 = ["AUTH TLS"]
    /\ steps_succeed d1 = true
    /\ ctrlConn (this (final (auth W st)))
       = Some (OverTLS (Some (TLSClient (rawConn (this st)) conf))).
Proof.
  unfold wants_AUTH. intros Hw.
  remember (auth W st) as o eqn:Ho.
  unfold auth, get_params, bind, ret in Ho. cbv beta in Ho. rewrite Hw in Ho.
  destruct (Command_run W "AUTH TLS" 234 st)
    as [(c & m & Hc & E) | (e & d & Hd & Hs & E)]; rewrite E in Ho; clear E;
    cbv beta iota in Ho.
  2:{ subst o. cbn [final]. rewrite since_extended, Hs.
      intros [H|[]]. discriminate H. }
  destruct (secureUpgrade_cases W
              (extend st [EvCmd "AUTH TLS" true; EvReadResponse 234 (Some (c, m))]))
    as (d & Hs & [(conf & Hok & E) | (Hbad & [(e & E) | (why & E)])]);
    rewrite E in Ho; clear E; cbv beta iota in Ho.
  2,3: subst o; cbn [final]; rewrite extend_extend, since_extended, sent_app, Hs;
       intros [H|[]]; discriminate H.
  cbn [this log extend] in Ho.
  assert (Hfin : forall res err dd,
             o = Return (res, err)
                   (extend {| this := upgraded (this st) conf;
                              log := ((log st ++ [EvCmd "AUTH TLS" true;
                                                  EvReadResponse 234 (Some (c, m))])
                                        ++ d ++ [EvTLSClient conf])%list |} dd) ->
             exists conf0 d1 d2,
               since st (final o) = (d1 ++ EvTLSClient conf0 :: d2)%list
               /\ sent d1 = ["AUTH TLS"] /\ steps_succeed d1 = true
               /\ ctrlConn (this (final o))
                  = Some (OverTLS (Some (TLSClient (rawConn (this st)) conf0)))).
  { intros res err dd ->. cbn [final this extend upgraded ctrlConn rawConn].
    exists conf, ([EvCmd "AUTH TLS" true; EvReadResponse 234 (Some (c, m))] ++ d)%list, dd.
    split; [|split; [|split]].
    - apply since_extend. unfold extend. cbn [log final]. rewrite <- !app_assoc. reflexivity.
    - rewrite sent_app, Hs. reflexivity.
    - rewrite steps_succeed_app, Hok. cbn. now rewrite Hc.
    - reflexivity. }
  intros _.
  match type of Ho with
  | context [Command ?W ?cmd ?expect ?s] =>
      destruct (Command_run W cmd expect s)
        as [(c1 & m1 & Hc1 & E) | (e & d1 & Hd1 & Hs1 & E)]; rewrite E in Ho; clear E;
      cbv beta iota in Ho
  end.
  2:{ eapply Hfin, Ho. }
  match type of Ho with
  | context [Command ?W ?cmd ?expect ?s] =>
      destruct (Command_run W cmd expect s)
        as [(c2 & m2 & Hc2 & E) | (e & d2 & Hd2 & Hs2 & E)]; rewrite E in Ho; clear E;
      cbv beta iota in Ho; rewrite extend_extend in Ho
  end; eapply Hfin, Ho.
Qed.

Lemma auth_credentials_after_upgrade_witness :
  wants_AUTH (params (this explicit_session)) = true
  /\ In ("USER " ++ params.user (params (this explicit_session)))
        (sent (since explicit_session (final (auth example_server explicit_session))))
  /\ exists conf,
      ctrlConn (this (final (auth example_server explicit_session)))
      = Some (OverTLS (Some (TLSClient (rawConn (this explicit_session)) conf))).
Proof.
  assert (Hin : In ("USER " ++ params.user (params (this explicit_session)))
                   (sent (since explicit_session
                            (final (auth example_server explicit_session)))))
    by (vm_compute; auto).
  split; [reflexivity|]. split; [exact Hin|].
  destruct (auth_credentials_after_upgrade example_server explicit_session eq_refl Hin)
    as (conf & _ & _ & _ & _ & _ & Hc).
  now exists conf.
Defined.

(** ** [quit]: what is closed, and when *)

(** The trace of one command exchange: the command could not be written,
    or it was written and a reply, or none, was read. *)
Definition is_exchange (cmd : string) (expect : Z) (d : Datatypes.list event) : Prop :=
  d = [EvCmd cmd false] \/ exists r, d = [EvCmd cmd true; EvReadResponse expect r].

Lemma Command_trace (W : World) (cmd : string) (expect : Z) (st : Session) :
  exists a d,
    is_exchange cmd expect d /\ Command W cmd expect st = Return a (extend st d).
Proof.
  unfold Command, ctrlConn_Cmd, ctrlConn_ReadResponse, bind, interact, ret, extend.
  cbn [log this].
  destruct (w_Cmd W (log st) cmd); cbn [sys log this].
  - destruct (w_ReadResponse W (log st ++ [EvCmd cmd true])) as [[c m]|] eqn:Er.
    + destruct (code_matches expect c);
        eexists _, _; rewrite <- app_assoc;
        (split; [right; eexists; reflexivity | reflexivity]).
    + eexists _, _; rewrite <- app_assoc;
        (split; [right; eexists; reflexivity | reflexivity]).
  - eexists _, _. split; [left; reflexivity | reflexivity].
Qed.

(** The connections [quit] closes, in the order its deferred calls run. *)
Definition closed_by_quit (p : ftpParameters) : Datatypes.list closer :=
  ((if negb (is_IMPLICIT (params.secureMode p)) then [RawConn] else [])
     ++ (if params.secure p then [TlsConn] else [])
     ++ [CtrlConn])%list.

(** X10.  Every run of [quit] is one [QUIT] exchange followed by the
    closing of the connections, whether the exchange succeeded or not:
    the raw connection first unless the mode is implicit, then the TLS
    connection if the session is secure, the control connection last.
    The receiver itself is left as it was: [quit] does not set the state
    back to [OFFLINE]. *)
Theorem quit_closes_after_exchange (W : World) (st : Session) :
  exists d,
    is_exchange "QUIT" 221 d
    /\ since st (final (quit W st))
       = (d ++ map EvClose (closed_by_quit (params (this st))))%list
    /\ this (final (quit W st)) = this st.
Proof.
  destruct (Command_trace W "QUIT" 221 st) as (a & d & Hd & E).
  exists d. split; [exact Hd|].
  unfold quit, get_params, bind, closed_by_quit.
  destruct (params.secure (params (this st)));
    destruct (negb (is_IMPLICIT (params.secureMode (params (this st)))));
    unfold deferring, Close, emit; rewrite E; cbn [final];
    rewrite ?extend_extend; (split; [apply since_extended | reflexivity]).
Qed.

(** ** [list], [download], [upload]: the error returned with [keepAlive] off *)

Lemma Command_cases (W : World) (cmd : string) (expect : Z) (st : Session) :
  (exists c m,
      code_matches expect c = true
      /\ Command W cmd expect st
         = Return (Some {| command := cmd; code := c; msg := m |}, None)
             (extend st [EvCmd cmd true; EvReadResponse expect (Some (c, m))]))
  \/ (exists e d,
         is_exchange cmd expect d /\ commands_succeed d = false
         /\ Command W cmd expect st = Return (None, Some e) (extend st d)).
Proof.
  unfold Command, ctrlConn_Cmd, ctrlConn_ReadResponse, bind, interact, ret, extend.
  cbn [log this].
  destruct (w_Cmd W (log st) cmd) eqn:Ew; cbn [sys log this].
  - destruct (w_ReadResponse W (log st ++ [EvCmd cmd true])) as [[c m]|] eqn:Er.
    + destruct (code_matches expect c) eqn:Ec.
      * left. exists c, m. split; [exact Ec|].
        now rewrite <- app_assoc.
      * right. eexists _, _. rewrite <- app_assoc.
        split; [|split]; [ | | reflexivity];
          [right; eexists; reflexivity | cbn; now rewrite Ec].
    + right. eexists _, _. rewrite <- app_assoc.
      split; [|split]; [ | | reflexivity]; [right; eexists; reflexivity | reflexivity].
  - right. eexists _, _.
    split; [|split]; [ | | reflexivity]; [left; reflexivity | reflexivity].
Qed.

Lemma quit_cases (W : World) (st : Session) :
  exists d,
    is_exchange "QUIT" 221 d
    /\ ((exists r,
            commands_succeed d = true
            /\ quit W st
               = Return (Some r, None)
                   {| this := this st;
                      log := (log st ++ d
                                ++ map EvClose (closed_by_quit (params (this st))))%list |})
        \/ (exists e,
               commands_succeed d = false
               /\ quit W st
                  = Return (None, Some e)
                      {| this := this st;
                         log := (log st ++ d
                                   ++ map EvClose (closed_by_quit (params (this st))))%list |})).
Proof.
  unfold quit, get_params, bind, closed_by_quit.
  destruct (Command_cases W "QUIT" 221 st)
    as [(c & m & Hc & E) | (e & d & Hd & Hs & E)].
  - exists [EvCmd "QUIT" true; EvReadResponse 221 (Some (c, m))].
    split; [right; eexists; reflexivity|]. left. eexists. split.
    + cbn. now rewrite Hc.
    + destruct (params.secure (params (this st)));
        destruct (negb (is_IMPLICIT (params.secureMode (params (this st)))));
        unfold deferring, Close, emit; rewrite E; unfold extend; cbn [log this app map];
        rewrite <- ?app_assoc; reflexivity.
  - exists d. split; [exact Hd|]. right. exists e. split; [exact Hs|].
    destruct (params.secure (params (this st)));
      destruct (negb (is_IMPLICIT (params.secureMode (params (this st)))));
      unfold deferring, Close, emit; rewrite E; unfold extend; cbn [log this app map];
      rewrite <- ?app_assoc; reflexivity.
Qed.

(** The returned [err] is the outcome of the final [QUIT] exchange of the
    trace [d], which ends with the closing of the connections. *)
Definition quit_decides (p : ftpParameters) (err : option error)
           (d : Datatypes.list event) : Prop :=
  exists d0 dq,
    d = (d0 ++ dq ++ map EvClose (closed_by_quit p))%list
    /\ is_exchange "QUIT" 221 dq
    /\ (err = None <-> commands_succeed dq = true).

Lemma with_keepAlive_off_error (W : World) {X} (zero : X)
      (body : Go (Datatypes.list (option FtpResponse) * X * option error))
      (st st' : Session) res x err :
  respects (emits any_event) body ->
  params.keepAlive (params (this st)) = false ->
  with_keepAlive W zero body st = Return (res, x, err) st' ->
  quit_decides (params (this st')) err (since st st').
Proof.
  intros Hb Hk. unfold with_keepAlive, get_params, bind. rewrite Hk. cbn [negb].
  unfold deferring_closure.
  specialize (Hb st). apply emits_log in Hb.
  destruct (body st) as [[[res0 x0] err0] st1|why st1]; [|discriminate].
  cbn [final] in Hb.
  unfold deferred_quit, bind.
  destruct (quit_cases W st1) as (d & Hd & [(r & Hs & E) | (e & Hs & E)]); rewrite E;
    cbn [ret]; intros [= <- <- <- <-]; cbn [this];
    exists (since st st1), d;
    (split; [apply since_extend; cbn [log]; rewrite Hb, <- app_assoc; reflexivity|]);
    (split; [exact Hd|]); rewrite Hs; split; congruence.
Qed.

(** X11.  With [keepAlive] off, the error [list], [download] and [upload]
    return is the one of the closing [QUIT] exchange, whatever happened
    before it: [err] is nil exactly when [QUIT] was written and answered
    with 221.  An error of the transfer itself is overwritten by the
    deferred closure. *)
Theorem keepAlive_off_error_is_quits (W : World) (st : Session) :
  params.keepAlive (params (this st)) = false ->
  (forall p res text err st',
      list W p st = Return (res, text, err) st' ->
      quit_decides (params (this st')) err (since st st'))
  /\ (forall l r res n err st',
         download W l r st = Return (res, n, err) st' ->
         quit_decides (params (this st')) err (since st st'))
  /\ (forall l r res n err st',
         upload W l r st = Return (res, n, err) st' ->
         quit_decides (params (this st')) err (since st st')).
Proof.
  intros Hk. repeat split.
  - intros p res text err st'.
    destruct (list_body any_event (fun _ _ _ => I) (fun _ _ => I) W p) as (body & -> & Hb).
    now apply with_keepAlive_off_error.
  - intros l r res n err st'.
    destruct (download_body any_event (fun _ _ _ => I) (fun _ _ => I) W l r)
      as (body & -> & Hb).
    now apply with_keepAlive_off_error.
  - intros l r res n err st'.
    destruct (upload_body any_event (fun _ _ _ => I) (fun _ _ => I) W l r)
      as (body & -> & Hb).
    now apply with_keepAlive_off_error.
Qed.

(** A host from which no data connection can be opened; the server
    answers as in [example_server]. *)
Definition no_data_host : World :=
  {| TIMEOUT := TIMEOUT example_server;
     KEEPALIVE := KEEPALIVE example_server;
     w_ParseDuration := w_ParseDuration example_server;
     w_LookupIP := w_LookupIP example_server;
     w_LoadX509KeyPair := w_LoadX509KeyPair example_server;
     w_ReadFile := w_ReadFile example_server;
     w_AppendCertsFromPEM := w_AppendCertsFromPEM example_server;
     w_DialTLS := w_DialTLS example_server;
     w_Dial := fun _ _ => false;
     w_Cmd := w_Cmd example_server;
     w_ReadResponse := w_ReadResponse example_server;
     w_InterfaceAddrs := w_InterfaceAddrs example_server;
     w_Listen := w_Listen example_server;
     w_Accept := w_Accept example_server;
     w_ReadAll := w_ReadAll example_server;
     w_Create := w_Create example_server;
     w_Open := w_Open example_server;
     w_Copy := w_Copy example_server |}.

(** On [no_data_host] the data connection of [download] cannot be
    dialed, yet with [keepAlive] off the call returns a nil error and the
    response of [QUIT] alone. *)
Lemma keepAlive_off_error_is_quits_witness :
  params.keepAlive (params (this one_shot_session)) = false
  /\ exists r st',
      download no_data_host "local.bin" "remote.bin" one_shot_session
      = Return ([Some r], 0, None) st'
      /\ In (EvDial "192.0.2.1:3213" false) (since one_shot_session st')
      /\ quit_decides (params (this st')) None (since one_shot_session st').
Proof.
  split; [reflexivity|].
  eexists _, _. split; [vm_compute; reflexivity|].
  split; [vm_compute; tauto|].
  eapply (proj1 (proj2 (keepAlive_off_error_is_quits no_data_host one_shot_session eq_refl))
            "local.bin" "remote.bin").
  vm_compute. reflexivity.
Defined.

(** ** What [getTLSConfig] does besides loading files: nothing *)

Definition loads_material (e : event) : Prop :=
  match e with
  | EvLoadX509KeyPair _ _ _ | EvReadFile _ _ | EvAppendCertsFromPEM _ _ => True
  | _ => False
  end.

Section OnlyLoads.
#[local] Hint Resolve emits_refl emits_trans emits_interact : go.
#[local] Hint Extern 1 (loads_material _) => exact I : go.

Lemma getTLSConfig_only_loads (W : World) :
  respects (emits loads_material) (getTLSConfig W).
Proof. unfold getTLSConfig; prims; walk. Qed.
End OnlyLoads.

Lemma getTLSConfig_trace (W : World) (st : Session) :
  exists d,
    Forall loads_material d
    /\ ((exists conf, getTLSConfig W st = Return (conf, None) (extend st d))
        \/ (exists conf e, getTLSConfig W st = Return (conf, Some e) (extend st d))
        \/ exists why, getTLSConfig W st = Panic why (extend st d)).
Proof.
  destruct (getTLSConfig_only_loads W st) as (d' & E' & F).
  destruct (getTLSConfig_run W st)
    as (d & _ & [[_ [conf E]] | [_ [(conf & e & E) | (why & E)]]]);
    rewrite E in E'; cbn [final extend log] in E'; apply app_inv_head in E'; subst d';
    exists d; (split; [exact F|]); eauto.
Qed.

(** ** [fileTransfer]: the local file *)

Definition is_file_close (e : event) : bool :=
  match e with EvClose LocalFile => true | _ => false end.

Definition is_copy_done (e : event) : bool :=
  match e with EvCopy _ true => true | _ => false end.

Lemma loads_material_quiet (f : event -> bool) (d : Datatypes.list event) :
  (forall e, loads_material e -> f e = false) ->
  Forall loads_material d -> existsb f d = false.
Proof.
  intros Hf. induction 1 as [|e d He Hd IH]; [reflexivity|].
  cbn [existsb]. now rewrite (Hf e He), IH.
Qed.

Ltac chew_transfer Ho :=
  repeat
    (first
       [ progress (cbv beta iota zeta in Ho; cbn [log this extend fst snd sys] in Ho)
       | match type of Ho with
     | context [params.passive ?p] => destruct (params.passive p) eqn:?
     | context [params.secure ?p] => destruct (params.secure p) eqn:?
     | context [match ?i with INil => _ | _ => _ end] => is_var i; destruct i
     | context [match ?dir with DOWNLOAD => _ | _ => _ end] => is_var dir; destruct dir
     | context [w_Accept ?W ?l] => destruct (w_Accept W l) eqn:?
     | context [getTLSConfig ?W ?s] =>
         let d := fresh "d" in
         let F := fresh "F" in
         let E := fresh "E" in
         destruct (getTLSConfig_trace W s)
           as (d & F & [(? & E) | [(? & ? & E) | (? & E)]]);
         rewrite E in Ho; clear E
     | context [w_Create ?W ?l ?u] => destruct (w_Create W l u) eqn:?
     | context [w_Open ?W ?l ?u] => destruct (w_Open W l u) eqn:?
     | context [w_Copy ?W ?l] => destruct (w_Copy W l) as [? [|]] eqn:?
     | context [w_ReadAll ?W ?l] => destruct (w_ReadAll W l) as [?|] eqn:?
     | context [w_ReadResponse ?W ?l] => destruct (w_ReadResponse W l) as [[? ?]|] eqn:?
     | context [code_matches ?e ?c] => destruct (code_matches e c) eqn:?
     end ]).

(** X12.  In every run of [fileTransfer] the local file is closed exactly
    when [io.Copy] succeeded: after a failed copy the file opened by
    [os.Create] or [os.Open] is left open, as no close is deferred
    for it. *)
Theorem fileTransfer_closes_file_iff_copied (W : World) (dir : direction) (uri : string)
        (itf : iface) (st : Session) :
  existsb is_file_close (since st (final (fileTransfer W dir uri itf st)))
  = existsb is_copy_done (since st (final (fileTransfer W dir uri itf st))).
Proof.
  remember (fileTransfer W dir uri itf st) as o eqn:Ho.
  unfold fileTransfer, get_params, listener_Accept, tls_Client, os_Create, os_Open,
    io_Copy, ctrlConn_ReadResponse, Close, emit, deferring, bind, interact, ret in Ho.
  chew_transfer Ho.
  all: subst o; cbn [final].
  all: try rewrite since_self.
  all: try since_norm_goal.
  all: rewrite ?existsb_app;
    repeat match goal with
           | F : Forall loads_material ?d |- _ =>
               rewrite (loads_material_quiet is_file_close d),
                 (loads_material_quiet is_copy_done d)
                 by (assumption || (intros [] ; easy));
               clear F
           end;
    reflexivity.
Qed.

(** ** [readBytes], [fileTransfer]: closing before the 226 confirmation *)

(** The data channel the bytes go through: the TLS layer when the
    session is secure, the data connection itself otherwise. *)
Definition data_channel (p : ftpParameters) : closer :=
  if params.secure p then DataTLS else DataConn.

Definition is_close_of (c : closer) (e : event) : bool :=
  match e, c with
  | EvClose DataTLS, DataTLS | EvClose DataConn, DataConn
  | EvClose LocalFile, LocalFile => true
  | _, _ => false
  end.

(** Every reply read in [d] comes after an event that satisfies [f]. *)
Fixpoint confirmed_after (f : event -> bool) (seen : bool) (d : Datatypes.list event)
  : bool :=
  match d with
  | [] => true
  | EvReadResponse _ _ :: d' => seen && confirmed_after f seen d'
  | e :: d' => confirmed_after f (seen || f e) d'
  end.

Lemma confirmed_after_split f (d1 : Datatypes.list event) :
  forall seen x r d2,
    confirmed_after f seen (d1 ++ EvReadResponse x r :: d2) = true ->
    seen = true \/ existsb f d1 = true.
Proof.
  induction d1 as [|e d1 IH]; intros seen x r d2 H.
  - cbn in H. apply andb_prop in H. now left.
  - assert (G : seen = true \/ f e = true \/ existsb f d1 = true).
    { destruct e; cbn [app confirmed_after] in H;
        try (apply IH in H; rewrite orb_true_iff in H; tauto).
      apply andb_prop in H. tauto. }
    cbn [existsb]. rewrite orb_true_iff. tauto.
Qed.

Lemma confirmed_after_loads f (d : Datatypes.list event) :
  (forall e, loads_material e -> f e = false) ->
  Forall loads_material d ->
  forall seen rest, confirmed_after f seen (d ++ rest) = confirmed_after f seen rest.
Proof.
  intros Hf. induction 1 as [|e d He Hd IH]; intros seen rest; [reflexivity|].
  cbn [app]. destruct e; try contradiction He; cbn [confirmed_after];
    rewrite Hf, orb_false_r by exact I; apply IH.
Qed.

Lemma is_close_of_sound (c : closer) (d : Datatypes.list event) :
  existsb (is_close_of c) d = true -> In (EvClose c) d.
Proof.
  rewrite existsb_exists. intros (e & Hin & He).
  destruct e; try discriminate He.
  destruct what, c; try discriminate He; exact Hin.
Qed.

Ltac scan_runs :=
  cbn [app confirmed_after];
  rewrite ?confirmed_after_loads
    by (assumption || (intros [] ; solve [reflexivity | contradiction]));
  reflexivity.

Lemma readBytes_confirmed (W : World) (itf : iface) (st : Session) :
  confirmed_after (is_close_of (data_channel (params (this st)))) false
    (since st (final (readBytes W itf st))) = true.
Proof.
  remember (readBytes W itf st) as o eqn:Ho.
  unfold data_channel.
  unfold readBytes, get_params, listener_Accept, tls_Client, ioutil_ReadAll,
    ctrlConn_ReadResponse, Close, emit, deferring, bind, interact, ret in Ho.
  chew_transfer Ho.
  all: subst o; cbn [final].
  all: try rewrite since_self.
  all: try since_norm_goal.
  all: repeat match goal with
              | H : params.secure _ = _ |- _ => rewrite H
              end.
  all: scan_runs.
Qed.

Lemma fileTransfer_confirmed (W : World) (dir : direction) (uri : string) (itf : iface)
      (st : Session) (c : closer) :
  c = data_channel (params (this st)) \/ c = LocalFile ->
  confirmed_after (is_close_of c) false
    (since st (final (fileTransfer W dir uri itf st))) = true.
Proof.
  intros Hc.
  remember (fileTransfer W dir uri itf st) as o eqn:Ho.
  unfold data_channel in Hc.
  unfold fileTransfer, get_params, listener_Accept, tls_Client, os_Create, os_Open,
    io_Copy, ctrlConn_ReadResponse, Close, emit, deferring, bind, interact, ret in Ho.
  chew_transfer Ho.
  all: subst o; cbn [final].
  all: try rewrite since_self.
  all: try since_norm_goal.
  all: repeat match goal with
              | H : params.secure _ = _ |- _ => rewrite H in Hc
              end.
  all: destruct Hc as [-> | ->]; scan_runs.
Qed.

(** X13.  [readBytes] and [fileTransfer] read the 226 confirmation from
    the control connection only after they have closed the data channel
    (its TLS layer when the session is secure); [fileTransfer] has closed
    the local file by then as well. *)
Theorem data_channel_closed_before_confirmation (W : World) (st : Session) :
  (forall itf d1 r d2,
      since st (final (readBytes W itf st)) = (d1 ++ EvReadResponse 226 r :: d2)%list ->
      In (EvClose (data_channel (params (this st)))) d1)
  /\ (forall dir uri itf d1 r d2,
         since st (final (fileTransfer W dir uri itf st))
         = (d1 ++ EvReadResponse 226 r :: d2)%list ->
         In (EvClose (data_channel (params (this st)))) d1
         /\ In (EvClose LocalFile) d1).
Proof.
  split.
  - intros itf d1 r d2 E.
    pose proof (readBytes_confirmed W itf st) as H. rewrite E in H.
    apply confirmed_after_split in H. destruct H as [H|H]; [discriminate H|].
    now apply is_close_of_sound.
  - intros dir uri itf d1 r d2 E. split.
    + pose proof (fileTransfer_confirmed W dir uri itf st _ (or_introl eq_refl)) as H.
      rewrite E in H.
      apply confirmed_after_split in H. destruct H as [H|H]; [discriminate H|].
      now apply is_close_of_sound.
    + pose proof (fileTransfer_confirmed W dir uri itf st _ (or_intror eq_refl)) as H.
      rewrite E in H.
      apply confirmed_after_split in H. destruct H as [H|H]; [discriminate H|].
      now apply is_close_of_sound.
Qed.

Lemma data_channel_closed_before_confirmation_witness :
  since kept_session
    (final (fileTransfer example_server DOWNLOAD "local.bin"
              (IConn (Dialed "192.0.2.1:3213")) kept_session))
  = ([EvCreate "local.bin" true; EvCopy 0 true; EvClose DataConn; EvClose LocalFile]
       ++ EvReadResponse 226 (Some (226, "Transfer complete")) :: [EvClose DataConn])%list
  /\ In (EvClose (data_channel (params (this kept_session))))
        [EvCreate "local.bin" true; EvCopy 0 true; EvClose DataConn; EvClose LocalFile]
  /\ In (EvClose LocalFile)
        [EvCreate "local.bin" true; EvCopy 0 true; EvClose DataConn; EvClose LocalFile].
Proof.
  assert (E : since kept_session
                (final (fileTransfer example_server DOWNLOAD "local.bin"
                          (IConn (Dialed "192.0.2.1:3213")) kept_session))
              = ([EvCreate "local.bin" true; EvCopy 0 true; EvClose DataConn;
                  EvClose LocalFile]
                   ++ EvReadResponse 226 (Some (226, "Transfer complete"))
                   :: [EvClose DataConn])%list)
    by (vm_compute; reflexivity).
  split; [exact E|].
  exact (proj2 (data_channel_closed_before_confirmation example_server kept_session)
           DOWNLOAD "local.bin" (IConn (Dialed "192.0.2.1:3213")) _ _ _ E).
Defined.

(** ** [connect]: the one dial *)

(** The dials of a trace: over TLS or not, the address, and whether the
    dial succeeded. *)
Definition dials (d : Datatypes.list event) : Datatypes.list (bool * string * bool) :=
  flat_map (fun e => match e with
                     | EvDial a ok => [(false, a, ok)]
                     | EvDialTLS a _ ok => [(true, a, ok)]
                     | _ => []
                     end) d.

Lemma dials_app (d1 d2 : Datatypes.list event) : dials (d1 ++ d2) = (dials d1 ++ dials d2)%list.
Proof. apply flat_map_app. Qed.

Lemma loads_material_dials (d : Datatypes.list event) :
  Forall loads_material d -> dials d = [].
Proof.
  induction 1 as [|e d He Hd IH]; [reflexivity|].
  change (e :: d) with ([e] ++ d)%list. rewrite dials_app, IH.
  now destruct e.
Qed.

Ltac chew_connect Ho :=
  repeat
    (first
       [ progress (cbv beta iota zeta in Ho; cbn [log this extend fst snd sys] in Ho)
       | match type of Ho with
         | context [w_LookupIP ?W ?l ?h] =>
             destruct (w_LookupIP W l h) as [[|? ?]|] eqn:?
         | context [w_ParseDuration ?W ?s] => destruct (w_ParseDuration W s) eqn:?
         | context [params.secure ?p && is_IMPLICIT ?m] =>
             destruct (params.secure p && is_IMPLICIT m) eqn:?
         | context [getTLSConfig ?W ?s] =>
             let d := fresh "d" in
             let F := fresh "F" in
             let E := fresh "E" in
             destruct (getTLSConfig_trace W s)
               as (d & F & [(? & E) | [(? & ? & E) | (? & E)]]);
             rewrite E in Ho; clear E
         | context [w_DialTLS ?W ?l ?a ?c] => destruct (w_DialTLS W l a c) eqn:?
         | context [w_Dial ?W ?l ?a] => destruct (w_Dial W l a) eqn:?
         | context [w_ReadResponse ?W ?l] =>
             destruct (w_ReadResponse W l) as [[? ?]|] eqn:?
         | context [code_matches ?e ?c] => destruct (code_matches e c) eqn:?
         end ]).

(** X14.  A run of [connect] dials at most once.  When it dials, the
    address is the first address the lookup of [host] returned, with the
    configured port, and the dial is a TLS dial exactly when the session
    is secure in implicit mode. *)
Theorem connect_dials_once (W : World) (st : Session) :
  let p := params (this st) in
  dials (since st (final (connect W st))) = []
  \/ exists ip rest ok,
      w_LookupIP W (log st) (params.host p) = Some (ip :: rest)
      /\ dials (since st (final (connect W st)))
         = [(params.secure p && is_IMPLICIT (params.secureMode p),
             ip ++ ":" ++ fmt.Sprintf_d (params.port p), ok)].
Proof.
  cbv zeta.
  remember (connect W st) as o eqn:Ho.
  unfold connect, get_params, net_LookupIP, index, time_ParseDuration,
    tls_DialWithDialer, net_Dial, set_tlsConn, set_rawConn, set_ctrlConn, set_State,
    set_this, ctrlConn_ReadResponse, bind, interact, ret, panic in Ho.
  cbn [nth_error] in Ho.
  chew_connect Ho.
  all: subst o; cbn [final].
  all: try since_norm_goal.
  all: rewrite ?dials_app;
    repeat match goal with
           | F : Forall loads_material ?d |- _ =>
               rewrite (loads_material_dials d F); clear F
           end.
  all: first [ left; reflexivity
             | right; eexists _, _, _; split; [reflexivity|];
               repeat match goal with
                      | H : (_ && _)%bool = _ |- _ => rewrite H
                      end; reflexivity ].
Qed.

(** ** [getTLSConfig]: what the configuration trusts *)

(** X15.  A configuration [getTLSConfig] returns without error skips
    the verification of the server exactly when [alwaysTrust] is set,
    offers the fixed list of cipher suites, and has a root certificate
    in its pool only when [alwaysTrust] is set: with verification on,
    the pool of roots is nil or empty, whatever [rootCA] names. *)
Theorem getTLSConfig_trust (W : World) (st : Session) conf st' :
  getTLSConfig W st = Return (conf, None) st' ->
  InsecureSkipVerify conf = params.alwaysTrust (params (this st))
  /\ ClientAuth conf = VerifyClientCertIfGiven
  /\ CipherSuites conf = suites
  /\ (params.alwaysTrust (params (this st)) = false ->
      RootCAs conf = None \/ RootCAs conf = Some []).
Proof.
  unfold getTLSConfig, tls_LoadX509KeyPair, ioutil_ReadFile, AppendCertsFromPEM,
    get_params, bind, interact, ret, panic.
  intros H.
  repeat
    (cbv beta iota in H; cbn [log this extend fst snd sys negb andb] in H;
     match type of H with
     | context [(params.cert ?p =? "")%string] =>
         destruct (params.cert p =? "")%string eqn:?
     | context [(params.key ?p =? "")%string] =>
         destruct (params.key p =? "")%string eqn:?
     | context [(params.rootCA ?p =? "")%string] =>
         destruct (params.rootCA p =? "")%string eqn:?
     | context [params.alwaysTrust ?p] =>
         destruct (params.alwaysTrust p) eqn:?
     | context [w_LoadX509KeyPair ?W ?l ?c ?k] => destruct (w_LoadX509KeyPair W l c k) eqn:?
     | context [w_ReadFile ?W ?l ?f] => destruct (w_ReadFile W l f) eqn:?
     | context [w_AppendCertsFromPEM ?W ?l ?f] =>
         destruct (w_AppendCertsFromPEM W l f) eqn:?
     end).
  all: try discriminate H.
  all: injection H as <- _; cbn;
    repeat split; try reflexivity; intros; first [discriminate | auto].
Qed.

Lemma getTLSConfig_trust_witness :
  exists conf st',
    getTLSConfig example_server rooted_session = Return (conf, None) st'
    /\ InsecureSkipVerify conf = false
    /\ RootCAs conf = Some [].
Proof.
  eexists _, _. split; [vm_compute; reflexivity|].
  split.
  - refine (proj1 (getTLSConfig_trust example_server rooted_session _ _ _)).
    vm_compute. reflexivity.
  - reflexivity.
Defined.

(** ** [download], [upload]: what a successful call returns *)

Lemma fileTransfer_success (W : World) (dir : direction) (uri : string) (itf : iface)
      (st st' : Session) r n :
  fileTransfer W dir uri itf st = Return (r, n, None) st' ->
  (exists m, r = Some {| command := ""; code := 226; msg := m |})
  /\ In (EvCopy n true) (since st st').
Proof.
  intros H.
  unfold fileTransfer, get_params, listener_Accept, tls_Client, os_Create, os_Open,
    io_Copy, ctrlConn_ReadResponse, Close, emit, deferring, bind, interact, ret in H.
  chew_transfer H.
  all: try discriminate H.
  all: injection H as <- <- <-.
  all: match goal with
       | Hc : code_matches 226 ?c = true |- _ =>
           apply code_matches_exact in Hc; [subst c | lia]
       end.
  all: (split; [eexists; reflexivity|]).
  all: since_norm_goal; rewrite ?in_app_iff; cbn [In]; tauto.
Qed.

Lemma since_chain (st st1 st2 : Session) :
  emits any_event st st1 -> emits any_event st1 st2 ->
  since st st2 = (since st st1 ++ since st1 st2)%list.
Proof.
  intros H1 H2. apply emits_log in H1, H2.
  apply since_extend. now rewrite H2, H1, <- app_assoc.
Qed.

Lemma any_event_cmd (c : string) (ok : bool) : c <> "QUIT" -> any_event (EvCmd c ok).
Proof. intros _. exact I. Qed.

Lemma any_event_other (e : event) : ~ is_command e -> any_event e.
Proof. intros _. exact I. Qed.

(** The responses of a successful transfer: the one of the negotiation
    of the data channel, the 150 reply to [cmd], the 226 confirmation. *)
Definition transfer_responses (cmd : string) (res : Datatypes.list (option FtpResponse))
  : Prop :=
  exists r1 m2 m3,
    res = [r1; Some {| command := cmd; code := 150; msg := m2 |};
           Some {| command := ""; code := 226; msg := m3 |}].

Lemma transfer_body_success (W : World) (dir : direction) (cmd uri : string)
      (st st' : Session) res n :
  (('(r, itf, err) <- negotiate W ;;
    match err with
    | Some e => ret ([], 0, Some e)
    | None =>
        let res := ([] ++ [r])%list in
        '(r, err) <- Command W cmd 150 ;;
        match err with
        | Some e => ret (res, 0, Some e)
        | None =>
            let res := (res ++ [r])%list in
            '(r, len, err) <- fileTransfer W dir uri itf ;;
            match err with
            | Some e => ret (res, len, Some e)
            | None => ret ((res ++ [r])%list, len, None)
            end
        end
    end) st) = Return (res, n, None) st' ->
  transfer_responses cmd res /\ In (EvCopy n true) (since st st').
Proof.
  unfold bind, ret.
  pose proof (emits_negotiate any_event any_event_cmd any_event_other W st) as Hn.
  destruct (negotiate W st) as [[[r1 itf] [e|]] st1|why st1]; try discriminate.
  cbn [final] in Hn.
  destruct (Command_run W cmd 150 st1)
    as [(c & m & Hc & E) | (e & d & Hd & Hs & E)]; rewrite E; clear E;
    [|discriminate].
  apply code_matches_exact in Hc; [subst c | lia].
  cbv zeta beta iota.
  match goal with
  | |- context [fileTransfer W dir uri itf ?s] =>
      pose proof (emits_fileTransfer any_event any_event_other W dir uri itf s) as Hf;
      pose proof (fileTransfer_success W dir uri itf s) as Hok;
      destruct (fileTransfer W dir uri itf s) as [[[r3 n3] [e|]] st3|why st3];
      try discriminate
  end.
  cbn [final] in Hf. intros [= <- <- <-].
  destruct (Hok st3 r3 n3 eq_refl) as [[m3 ->] Hin].
  split; [now exists r1, m, m3|].
  rewrite (since_chain st st1 st3).
  - rewrite in_app_iff. right.
    erewrite (since_chain st1 _ st3); [rewrite in_app_iff; right; exact Hin | | exact Hf].
    eexists. split; [reflexivity | repeat constructor].
  - exact Hn.
  - eapply emits_trans; [|exact Hf].
    eexists. split; [reflexivity | repeat constructor].
Qed.

Lemma readBytes_success (W : World) (itf : iface) (st st' : Session) r bytes :
  readBytes W itf st = Return (r, bytes, None) st' ->
  (exists m, r = Some {| command := ""; code := 226; msg := m |})
  /\ In (EvReadAll true) (since st st').
Proof.
  intros H.
  unfold readBytes, get_params, listener_Accept, tls_Client, ioutil_ReadAll,
    ctrlConn_ReadResponse, Close, emit, deferring, bind, interact, ret in H.
  chew_transfer H.
  all: try discriminate H.
  all: injection H as <- <- <-.
  all: match goal with
       | Hc : code_matches 226 ?c = true |- _ =>
           apply code_matches_exact in Hc; [subst c | lia]
       end.
  all: (split; [eexists; reflexivity|]).
  all: since_norm_goal; rewrite ?in_app_iff; cbn [In is_some]; tauto.
Qed.

Lemma list_body_success (W : World) (cmd : string) (st st' : Session) res text :
  (('(r, itf, err) <- negotiate W ;;
    match err with
    | Some e => ret ([], "", Some e)
    | None =>
        let res := ([] ++ [r])%list in
        '(r, err) <- Command W cmd 150 ;;
        match err with
        | Some e => ret (res, "", Some e)
        | None =>
            let res := (res ++ [r])%list in
            '(r, bytes, err) <- readBytes W itf ;;
            match err with
            | Some e => ret (res, "", Some e)
            | None => ret ((res ++ [r])%list, bytes, None)
            end
        end
    end) st) = Return (res, text, None) st' ->
  transfer_responses cmd res /\ In (EvReadAll true) (since st st').
Proof.
  unfold bind, ret.
  pose proof (emits_negotiate any_event any_event_cmd any_event_other W st) as Hn.
  destruct (negotiate W st) as [[[r1 itf] [e|]] st1|why st1]; try discriminate.
  cbn [final] in Hn.
  destruct (Command_run W cmd 150 st1)
    as [(c & m & Hc & E) | (e & d & Hd & Hs & E)]; rewrite E; clear E;
    [|discriminate].
  apply code_matches_exact in Hc; [subst c | lia].
  cbv zeta beta iota.
  match goal with
  | |- context [readBytes W itf ?s] =>
      pose proof (emits_readBytes any_event any_event_other W itf s) as Hf;
      pose proof (readBytes_success W itf s) as Hok;
      destruct (readBytes W itf s) as [[[r3 n3] [e|]] st3|why st3];
      try discriminate
  end.
  cbn [final] in Hf. intros [= <- <- <-].
  destruct (Hok st3 r3 n3 eq_refl) as [[m3 ->] Hin].
  split; [now exists r1, m, m3|].
  rewrite (since_chain st st1 st3).
  - rewrite in_app_iff. right.
    erewrite (since_chain st1 _ st3); [rewrite in_app_iff; right; exact Hin | | exact Hf].
    eexists. split; [reflexivity | repeat constructor].
  - exact Hn.
  - eapply emits_trans; [|exact Hf].
    eexists. split; [reflexivity | repeat constructor].
Qed.



(** ** [Command], [mkdir], [rmdir], [delete]: one exchange, one result *)

(** The method [m] returns after the one exchange of [cmd]: a response
    with the command and the expected code when the command was written
    and the reply read had that code, and an error without a response
    otherwise. *)
Definition exchange_result (m : Go (option FtpResponse * option error))
           (cmd : string) (expect : Z) (st : Session) : Prop :=
  exists r err d,
    m st = Return (r, err) (extend st d)
    /\ is_exchange cmd expect d
    /\ (err = None <-> commands_succeed d = true)
    /\ (err = None <-> exists m, r = Some {| command := cmd; code := expect; msg := m |})
    /\ (err <> None -> r = None).

Lemma Command_exchange_result (W : World) (cmd : string) (expect : Z) (st : Session) :
  100 <= expect < 1000 -> exchange_result (Command W cmd expect) cmd expect st.
Proof.
  intros He. unfold exchange_result.
  destruct (Command_cases W cmd expect st)
    as [(c & m & Hc & E) | (e & d & Hd & Hs & E)]; rewrite E.
  - pose proof (code_matches_exact _ _ He Hc) as ->.
    eexists _, _, _. split; [reflexivity|].
    split; [right; eexists; reflexivity|].
    split; [cbn; rewrite Hc; tauto|].
    split; [split; [intros _; eexists; reflexivity | reflexivity]|].
    intros H; now contradiction H.
  - exists None, (Some e), d. split; [reflexivity|].
    split; [exact Hd|].
    split; [rewrite Hs; split; discriminate|].
    split; [split; [discriminate | intros [m Hm]; discriminate Hm]|].
    reflexivity.
Qed.

(** X18.  [Command] never panics and performs one exchange: it writes
    the command and, only if that succeeded, reads one reply.  For a
    three-digit expected code it returns a response exactly when it
    returns no error, and this is the case exactly when the command was
    written and the reply read carried the expected code.  [mkdir],
    [rmdir] and [delete] are such exchanges of [MKD], [RMD] and [DELE],
    expecting 257, 250 and 200. *)
Theorem single_exchange_result (W : World) (st : Session) :
  (forall cmd expect,
      100 <= expect < 1000 -> exchange_result (Command W cmd expect) cmd expect st)
  /\ (forall p, exchange_result (mkdir W p) ("MKD " ++ p) 257 st)
  /\ (forall p, exchange_result (rmdir W p) ("RMD " ++ p) 250 st)
  /\ (forall p, exchange_result (delete W p) ("DELE " ++ p) 200 st).
Proof.
  split; [|split; [|split]].
  - intros cmd expect. apply Command_exchange_result.
  - intros p. apply Command_exchange_result. lia.
  - intros p. apply Command_exchange_result. lia.
  - intros p. apply Command_exchange_result. lia.
Qed.

Lemma single_exchange_result_witness :
  100 <= 215 < 1000
  /\ exchange_result (Command example_server "SYST" 215) "SYST" 215 kept_session.
Proof.
  split; [lia|].
  apply (proj1 (single_exchange_result example_server kept_session) "SYST" 215). lia.
Defined.
